(** * bsoncv.ToJson and store.Collection.FindOne

    A shallow embedding of the single-pass BSON-to-JSON transcoder of
    [bsoncv/bsoncv.go] and of the single-result query of the store wrapper,
    with the properties of the specification stated over them; then the
    transcoder on whole documents, the struct tags of [bsoncv/bsontags.go]
    and the calls of the store wrapper that decode and insert.

    Conventions of the embedding:
    - a Go [[]byte] is a [slice]: its visible elements and the bytes of the
      backing array between [len] and [cap] (a slice expression [s[lo:hi]]
      is checked against [cap], an index expression [s[i]] against [len]);
    - Go's [int] is 64 bits wide, so [int(uint32)] is never negative and the
      read cursor [idx], which only grows, is a [nat]; [stackptr] goes below
      zero and is a [Z];
    - a call either returns its byte slice or panics: [outcome];
    - [strconv.FormatFloat] and [time.Time.Format] come from Go's standard
      library and are parameters of the development. *)

From Stdlib Require Import ZArith NArith Lia DecimalPos.
From Stdlib Require Import Strings.Byte Strings.String Strings.Ascii.
From stdpp Require Import base list strings gmap.

Import Stdlib.Init.Byte.

Local Open Scope nat_scope.

(** ** Tag bytes (the [const] block of bsoncv.go) *)

Abbreviation Float64 := x01 (only parsing).
Abbreviation String_ := x02 (only parsing).
Abbreviation Object := x03 (only parsing).
Abbreviation Array := x04 (only parsing).
Abbreviation ObjectId := x07 (only parsing).
Abbreviation Boolean := x08 (only parsing).
Abbreviation UnixTimeMillis := x09 (only parsing).
Abbreviation Null := x0a (only parsing).
Abbreviation Int32 := x10 (only parsing).
Abbreviation Time := x11 (only parsing).
Abbreviation Int64 := x12 (only parsing).
Abbreviation Dec128 := x13 (only parsing).
Abbreviation Terminal := x00 (only parsing).
Abbreviation False_ := x00 (only parsing).
Abbreviation True_ := x01 (only parsing).

(** Output characters. *)
Abbreviation QUOTE := x22 (only parsing).
Abbreviation COLON := x3a (only parsing).
Abbreviation COMMA := x2c (only parsing).
Abbreviation LBRACE := x7b (only parsing).
Abbreviation RBRACE := x7d (only parsing).
Abbreviation LBRACKET := x5b (only parsing).
Abbreviation RBRACKET := x5d (only parsing).
Abbreviation BACKSLASH := x5c (only parsing).

Definition bytes_of (s : string) : list byte := list_byte_of_string s.

(** ** Go slices, panics and results *)

Record slice := Slice { elems : list byte; backing : list byte }.

Definition len (s : slice) : nat := length (elems s).
Definition cap (s : slice) : nat := length (elems s) + length (backing s).

Inductive panic :=
| PanicValue (v : list byte)      (* panic(jsonbytes) *)
| IndexOutOfRange                 (* runtime error: index out of range *)
| SliceBoundsOutOfRange.          (* runtime error: slice bounds out of range *)

Inductive res (A : Type) :=
| Ok (a : A)
| Panic (p : panic).
Arguments Ok {A} a.
Arguments Panic {A} p.

Definition bind {A B} (r : res A) (k : A -> res B) : res B :=
  match r with
  | Ok a => k a
  | Panic p => Panic p
  end.

Notation "'let!' x ':=' r 'in' k" := (bind r (fun x => k))
  (at level 10, x name, r at level 100, k at level 200,
   format "'[v' 'let!'  x  ':='  r  'in' '/' k ']'").

(** [s[i]] *)
Definition index (s : slice) (i : nat) : res byte :=
  match elems s !! i with
  | Some b => Ok b
  | None => Panic IndexOutOfRange
  end.

(** [s[lo:hi]], as the list of its elements *)
Definition subslice (s : slice) (lo hi : nat) : res (list byte) :=
  if (lo <=? hi) && (hi <=? cap s)
  then Ok (take (hi - lo) (drop lo (elems s ++ backing s)))
  else Panic SliceBoundsOutOfRange.

(** ** Scalar encoders *)

(** [binary.LittleEndian.Uint32] and [Uint64] on a slice of 4 or 8 bytes. *)
Fixpoint le_uint (bs : list byte) : N :=
  match bs with
  | [] => 0%N
  | b :: bs' => (Byte.to_N b + 256 * le_uint bs')%N
  end.

Fixpoint uint_bytes (d : Decimal.uint) : list byte :=
  match d with
  | Decimal.Nil => []
  | Decimal.D0 d => x30 :: uint_bytes d
  | Decimal.D1 d => x31 :: uint_bytes d
  | Decimal.D2 d => x32 :: uint_bytes d
  | Decimal.D3 d => x33 :: uint_bytes d
  | Decimal.D4 d => x34 :: uint_bytes d
  | Decimal.D5 d => x35 :: uint_bytes d
  | Decimal.D6 d => x36 :: uint_bytes d
  | Decimal.D7 d => x37 :: uint_bytes d
  | Decimal.D8 d => x38 :: uint_bytes d
  | Decimal.D9 d => x39 :: uint_bytes d
  end.

(** [strconv.FormatUint(n, 10)] *)
Definition FormatUint (n : N) : list byte := uint_bytes (N.to_uint n).

(** The text a signed formatter ([strconv.FormatInt(n, 10)]) produces; the
    source never calls it, the specification of the integer elements does. *)
Definition FormatInt (z : Z) : list byte :=
  if (z <? 0)%Z then x2d :: FormatUint (Z.to_N (- z)) else FormatUint (Z.to_N z).

(** Two's-complement reading of a [w]-bit pattern. *)
Definition to_signed (w : N) (n : N) : Z :=
  if (n <? 2 ^ (w - 1))%N then Z.of_N n else (Z.of_N n - Z.of_N (2 ^ w))%Z.

(** Wrap-around of an [int64] product. *)
Definition wrap_int64 (z : Z) : Z :=
  ((z + 2 ^ 63) mod 2 ^ 64 - 2 ^ 63)%Z.

Definition hexdigit (n : N) : byte :=
  nth (N.to_nat n) (bytes_of "0123456789abcdef") x30.

(** [hex.EncodeToString] *)
Fixpoint EncodeToString (bs : list byte) : list byte :=
  match bs with
  | [] => []
  | b :: bs' =>
      hexdigit (Byte.to_N b / 16) :: hexdigit (Byte.to_N b mod 16)
        :: EncodeToString bs'
  end.

(** The [switch] of the string case: what one payload byte appends. *)
Definition escape_byte (b : byte) : list byte :=
  match b with
  | x22 => [BACKSLASH; QUOTE]
  | x0a => [BACKSLASH; x6e]
  | x09 => [BACKSLASH; x74]
  | x5c => [BACKSLASH; BACKSLASH]
  | x0d => [BACKSLASH; x72]
  | _ => [b]
  end.

(** The bytes with a [case] of their own in that [switch]. *)
Definition escaped_bytes : list byte := [x22; x5c; x0a; x09; x0d].

(** [for i := idx; i < idx+length-1; i++ { switch bsonbytes[i] ... }],
    with [n] the number of iterations left. *)
Fixpoint escape_loop (n : nat) (bs : slice) (i : nat) (out : list byte)
  : res (list byte) :=
  match n with
  | 0 => Ok out
  | S n' =>
      let! b := index bs i in
      escape_loop n' bs (S i) (out ++ escape_byte b)
  end.

(** ** The decode loop *)

Record state := State {
  idx : nat;
  jsonbytes : list byte;
  stack : list byte;       (* var stack [64]byte *)
  stackptr : Z
}.

Definition with_idx (st : state) (i : nat) : state :=
  State i (jsonbytes st) (stack st) (stackptr st).

Definition emit (st : state) (text : list byte) : state :=
  State (idx st) (jsonbytes st ++ text) (stack st) (stackptr st).

(** [stack[stackptr]] as a value *)
Definition stack_top (st : state) : res byte :=
  if (0 <=? stackptr st)%Z
  then match stack st !! Z.to_nat (stackptr st) with
       | Some b => Ok b
       | None => Panic IndexOutOfRange
       end
  else Panic IndexOutOfRange.

(** [stack[stackptr] = b] *)
Definition stack_store (st : state) (b : byte) : res state :=
  if (0 <=? stackptr st)%Z && (Z.to_nat (stackptr st) <? length (stack st))
  then Ok (State (idx st) (jsonbytes st)
             (<[Z.to_nat (stackptr st) := b]> (stack st)) (stackptr st))
  else Panic IndexOutOfRange.

Definition move_stackptr (st : state) (d : Z) : state :=
  State (idx st) (jsonbytes st) (stack st) (stackptr st + d)%Z.

(** [for bsonbytes[end] != Terminal { end++ }] over the input from [end_]. *)
Fixpoint find_terminal (l : list byte) (end_ : nat) : res nat :=
  match l with
  | [] => Panic IndexOutOfRange
  | b :: l' =>
      if Byte.eqb b Terminal then Ok end_ else find_terminal l' (S end_)
  end.

Definition scan_name (bs : slice) (from : nat) : res nat :=
  find_terminal (drop from (elems bs)) from.

(** The block every element case starts with: step over the tag, find the
    end of the field name, write the quoted name and a colon when the top
    frame is a document, and put the cursor after the name's terminator. *)
Definition element_key (bs : slice) (st : state) : res state :=
  let i := S (idx st) in
  let! end_ := scan_name bs i in
  let! top := stack_top st in
  let! st1 := (if Byte.eqb top RBRACE
               then let! name := subslice bs i end_ in
                    Ok (emit st (QUOTE :: name ++ [QUOTE; COLON]))
               else Ok st) in
  Ok (with_idx st1 (end_ + 1)).

Inductive flow :=
| Continue (st : state)
| Return (out : list byte)
| Panics (p : panic).

Definition flow_of (r : res state) : flow :=
  match r with
  | Ok st => Continue st
  | Panic p => Panics p
  end.

Section Transcoder.

(** [strconv.FormatFloat(math.Float64frombits(bits), 'f', -1, 64)] *)
Variable FormatFloat : N -> list byte.
(** [time.Unix(0, nanos).Format(time.RFC3339Nano)] *)
Variable FormatRFC3339Nano : Z -> list byte.

(** The [switch bsonbytes[idx]] statement. *)
Definition dispatch (bs : slice) (st : state) : flow :=
  match index bs (idx st) with
  | Panic p => Panics p
  | Ok tag =>
    match tag with
    | Float64 => flow_of (
        let! st1 := element_key bs st in
        let! payload := subslice bs (idx st1) (idx st1 + 8) in
        Ok (with_idx (emit st1 (FormatFloat (le_uint payload))) (idx st1 + 8)))
    | String_ => flow_of (
        let! st1 := element_key bs st in
        let! prefix := subslice bs (idx st1) (idx st1 + 4) in
        let length := N.to_nat (le_uint prefix) in
        let i := idx st1 + 4 in
        let! out := escape_loop ((i + length - 1) - i) bs i
                 (jsonbytes st1 ++ [QUOTE]) in
        Ok (State (i + length) (out ++ [QUOTE]) (stack st1) (stackptr st1)))
    | Object => flow_of (
        let! st1 := element_key bs st in
        let! st2 := stack_store (move_stackptr (emit st1 [LBRACE]) 1) RBRACE in
        Ok (with_idx st2 (idx st2 + 4)))
    | Array => flow_of (
        let! st1 := element_key bs st in
        let! st2 := stack_store (move_stackptr (emit st1 [LBRACKET]) 1) RBRACKET in
        Ok (with_idx st2 (idx st2 + 4)))
    | ObjectId => flow_of (
        let! st1 := element_key bs st in
        let! payload := subslice bs (idx st1) (idx st1 + 12) in
        Ok (with_idx
              (emit st1 (QUOTE :: EncodeToString payload ++ [QUOTE]))
              (idx st1 + 12)))
    | Boolean => flow_of (
        let! st1 := element_key bs st in
        let! b := index bs (idx st1) in
        Ok (with_idx
              (emit st1 (if Byte.eqb b True_
                         then bytes_of "true" else bytes_of "false"))
              (idx st1 + 1)))
    | UnixTimeMillis => flow_of (
        let! st1 := element_key bs st in
        let! payload := subslice bs (idx st1) (idx st1 + 8) in
        let nanos := wrap_int64 (to_signed 64 (le_uint payload) * 1000000) in
        Ok (with_idx
              (emit st1 (QUOTE :: FormatRFC3339Nano nanos ++ [QUOTE]))
              (idx st1 + 8)))
    | Null => flow_of (
        let! st1 := element_key bs st in
        Ok (emit st1 (bytes_of "null")))
    | Int32 => flow_of (
        let! st1 := element_key bs st in
        let! payload := subslice bs (idx st1) (idx st1 + 4) in
        Ok (with_idx (emit st1 (FormatUint (le_uint payload))) (idx st1 + 4)))
    | Time => Panics (PanicValue (jsonbytes st))
    | Int64 => flow_of (
        let! st1 := element_key bs st in
        let! payload := subslice bs (idx st1) (idx st1 + 8) in
        Ok (with_idx (emit st1 (FormatUint (le_uint payload))) (idx st1 + 8)))
    | Dec128 => Panics (PanicValue (jsonbytes st))
    | Terminal => flow_of (
        let st1 := with_idx st (idx st + 1) in
        let! top := stack_top st1 in
        let! st2 := stack_store (emit st1 [top]) Terminal in
        Ok (move_stackptr st2 (-1)))
    | _ => Return (jsonbytes st)      (* fmt.Println(bsonbytes[idx]) *)
    end
  end.


(** [jsonbytes[len(jsonbytes)-1]] *)
Definition last_byte (out : list byte) : res byte :=
  match last out with
  | Some b => Ok b
  | None => Panic IndexOutOfRange
  end.

(** "Add commas in the right spots": the [if] that ends the loop body. *)
Definition add_comma (bs : slice) (st : state) : res state :=
  if idx st <? len bs then
    let! next := index bs (idx st) in
    if negb (Byte.eqb next Terminal) then
      let! l1 := last_byte (jsonbytes st) in
      if negb (Byte.eqb l1 LBRACE) then
        let! l2 := last_byte (jsonbytes st) in
        if negb (Byte.eqb l2 LBRACKET) then Ok (emit st [COMMA]) else Ok st
      else Ok st
    else Ok st
  else Ok st.

(** One iteration of [for idx < len(bsonbytes)]. *)
Definition iteration (bs : slice) (st : state) : flow :=
  match dispatch bs st with
  | Continue st1 => flow_of (add_comma bs st1)
  | Return out => Return out
  | Panics p => Panics p
  end.

Inductive outcome :=
| Returned (out : list byte)
| Panicked (p : panic).

(** The loop, with a bound on the number of iterations; [None] when the
    bound is used up ([ToJson_total] shows it never is in [ToJson]: every
    iteration moves [idx] forward). *)
Fixpoint loop (fuel : nat) (bs : slice) (st : state) : option outcome :=
  if idx st <? len bs then
    match fuel with
    | 0 => None
    | S fuel' =>
        match iteration bs st with
        | Continue st' => loop fuel' bs st'
        | Return out => Some (Returned out)
        | Panics p => Some (Panicked p)
        end
    end
  else Some (Returned (jsonbytes st)).

(** The state on entry to the loop. *)
Definition initial : state :=
  State 4 [LBRACE] (<[0 := RBRACE]> (replicate 64 x00)) 0.

Definition ToJson (bsonbytes : slice) : option outcome :=
  if len bsonbytes =? 0 then Some (Returned (elems bsonbytes))
  else loop (len bsonbytes) bsonbytes initial.

(** The loop from a state on, with the iterations the rest of the input
    can need. *)
Definition run (bs : slice) (st : state) : option outcome :=
  loop (len bs - idx st) bs st.

(** The states at which the loop condition is evaluated during
    [ToJson bs]. *)
Inductive reachable (bs : slice) : state -> Prop :=
| reach_initial : len bs <> 0 -> reachable bs initial
| reach_iteration st st' :
    reachable bs st -> idx st < len bs -> iteration bs st = Continue st' ->
    reachable bs st'.

(** The state after [n] iterations from [st], when the loop makes them. *)
Fixpoint states_after (n : nat) (bs : slice) (st : state) : option state :=
  match n with
  | 0 => Some st
  | S n' =>
      if idx st <? len bs then
        match iteration bs st with
        | Continue st' => states_after n' bs st'
        | _ => None
        end
      else None
  end.

End Transcoder.

(** The tags with a [case] of their own that decode an element. *)
Definition is_element (tag : byte) : bool :=
  match tag with
  | Float64 | String_ | Object | Array | ObjectId | Boolean
  | UnixTimeMillis | Null | Int32 | Int64 => true
  | _ => false
  end.

(** The tags the [switch] names; every other byte takes [default]. *)
Definition recognized (tag : byte) : bool :=
  match tag with
  | Terminal | Time | Dec128 => true
  | _ => is_element tag
  end.

(** What holds of every state of the loop: the stack keeps its 64 slots,
    the stack pointer stays within them or one below, and the output is
    never empty. *)
Definition invariant (st : state) : Prop :=
  length (stack st) = 64 /\ (-1 <= stackptr st <= 63)%Z /\ jsonbytes st <> [].


(** The call comes back to its caller with a byte slice. *)
Definition returns (o : option outcome) : Prop :=
  exists out, o = Some (Returned out).

(** The call panics: it does not come back, and the process ends unless a
    caller recovers. *)
Definition aborts (o : option outcome) : Prop :=
  exists p, o = Some (Panicked p).

(** ** Sample documents *)

Definition byte_of_N (n : N) : byte :=
  match Byte.of_N (n mod 256) with
  | Some b => b
  | None => x00
  end.

(** [int32] length prefix, little-endian *)
Definition le32 (n : N) : list byte :=
  [byte_of_N n; byte_of_N (n / 256); byte_of_N (n / 65536);
   byte_of_N (n / 16777216)].

(** A document with one element: prefix, tag, name, payload, terminator. *)
Definition document1 (tag : byte) (name payload : list byte) : list byte :=
  le32 (N.of_nat (4 + 1 + length name + 1 + length payload + 1))
    ++ tag :: name ++ Terminal :: payload ++ [Terminal].

(** The empty document. *)
Definition empty_document : list byte := le32 5 ++ [Terminal].

(** [nested_document n]: the document [{"a":{"a": ... {} ... }}] with [n]
    embedded documents below the top-level one, [n + 1] containers deep. *)
Fixpoint nested_document (n : nat) : list byte :=
  match n with
  | 0 => empty_document
  | S k =>
      let inner := nested_document k in
      le32 (N.of_nat (4 + 3 + length inner + 1))
        ++ [Object; x61; Terminal] ++ inner ++ [Terminal]
  end.

(** [{"a": <binary data, no bytes>}]: the tag 0x05 has no [case]. *)
Definition binary_document : list byte :=
  document1 x05 [x61] (le32 0 ++ [x00]).

(** [{"a": true, "b": <binary data, no bytes>}] *)
Definition boolean_binary_document : list byte :=
  le32 18 ++ [Boolean; x61; Terminal; True_]
    ++ [x05; x62; Terminal] ++ le32 0 ++ [x00] ++ [Terminal].

(** [{"a": true, "b": null}] *)
Definition boolean_null_document : list byte :=
  le32 12 ++ [Boolean; x61; Terminal; True_]
    ++ [Null; x62; Terminal] ++ [Terminal].

(** [{"a": <Decimal128 zero>}] and [{"a": <timestamp zero>}] *)
Definition decimal128_document : list byte :=
  document1 Dec128 [x61] (replicate 16 x00).
Definition timestamp_document : list byte :=
  document1 Time [x61] (replicate 8 x00).

(** [{"s": <a quote, a backslash, a newline, a tab, a carriage return>}] *)
Definition string_payload : list byte := [x22; x5c; x0a; x09; x0d].
Definition string_document : list byte :=
  document1 String_ [x73] (le32 6 ++ string_payload ++ [Terminal]).

(** [{"s": <a backspace>}] *)
Definition backspace_document : list byte :=
  document1 String_ [x73] (le32 2 ++ [x08] ++ [Terminal]).

(** [{"a": [7]}], cut after the header of the array: what precedes the
    first element of the array, its name ["0"], and what follows the name. *)
Definition array_prefix : list byte :=
  le32 20 ++ [Array; x61; Terminal] ++ le32 12.
Definition array_rest : list byte :=
  [x07; x00; x00; x00] ++ [Terminal] ++ [Terminal].
Definition array_document : list byte :=
  array_prefix ++ Int32 :: [x30] ++ Terminal :: array_rest.

(** The state of the loop at the first element of the array. *)
Definition array_state : state :=
  State 11 [LBRACE; QUOTE; x61; QUOTE; COLON; LBRACKET]
    (<[1 := RBRACKET]> (<[0 := RBRACE]> (replicate 64 x00))) 1.

(** Instances of the two library formatters for evaluating [ToJson] on
    documents; no document below has a float or a timestamp element. *)
Definition FormatFloat_any : N -> list byte := fun _ => bytes_of "0".
Definition FormatTime_any : Z -> list byte := fun _ => bytes_of "T".
Definition ToJson_any : slice -> option outcome :=
  ToJson FormatFloat_any FormatTime_any.

(** ** JSON string syntax (RFC 8259, section 7), for the round trip

    The reader a JSON parser applies to a string: it replaces the escapes,
    takes no control character that is not escaped, and gives a value only
    when the bytes it has read are well-formed UTF-8. (Go's [encoding/json]
    refuses an unescaped control character as well; in the place of
    ill-formed bytes and of a surrogate without its pair it puts U+FFFD,
    where this reader gives nothing: either way the bytes are not read
    back.) *)

Definition hexval (b : byte) : option N :=
  let n := Byte.to_N b in
  if ((48 <=? n) && (n <=? 57))%N then Some (n - 48)%N
  else if ((97 <=? n) && (n <=? 102))%N then Some (n - 87)%N
  else if ((65 <=? n) && (n <=? 70))%N then Some (n - 55)%N
  else None.

(** The number four hexadecimal digits stand for. *)
Definition hex4 (h1 h2 h3 h4 : byte) : option N :=
  match hexval h1, hexval h2, hexval h3, hexval h4 with
  | Some a, Some b, Some c, Some d =>
      Some (a * 4096 + b * 256 + c * 16 + d)%N
  | _, _, _, _ => None
  end.

(** UTF-8 of a code point. *)
Definition utf8 (c : N) : list byte :=
  if (c <? 128)%N then [byte_of_N c]
  else if (c <? 2048)%N then
    [byte_of_N (192 + c / 64); byte_of_N (128 + c mod 64)]
  else if (c <? 65536)%N then
    [byte_of_N (224 + c / 4096); byte_of_N (128 + (c / 64) mod 64);
     byte_of_N (128 + c mod 64)]
  else
    [byte_of_N (240 + c / 262144); byte_of_N (128 + (c / 4096) mod 64);
     byte_of_N (128 + (c / 64) mod 64); byte_of_N (128 + c mod 64)].

(** The character a two-character escape stands for. *)
Definition unescape_char (e : byte) : option byte :=
  match e with
  | x22 => Some x22
  | x5c => Some x5c
  | x2f => Some x2f
  | x62 => Some x08
  | x66 => Some x0c
  | x6e => Some x0a
  | x72 => Some x0d
  | x74 => Some x09
  | _ => None
  end.

Definition cons_fst {A B} (a : list A) (r : option (list A * B))
  : option (list A * B) :=
  match r with
  | Some (l, b) => Some (a ++ l, b)
  | None => None
  end.

(** A control character, which the grammar admits in a string only as an
    escape. *)
Definition control (b : byte) : bool := (Byte.to_N b <? 32)%N.

(** A control character with no [case] of its own in the [switch] of the
    string case: every one but the newline, the tab and the carriage
    return. *)
Definition bare_control (b : byte) : bool :=
  control b && negb (existsb (Byte.eqb b) escaped_bytes).

(** The characters of a string after its opening quote: unescaped up to
    the closing quote, with what follows it. An unescaped control
    character ends the reading, and so does an escape the grammar does not
    have; a [\u] escape of a high surrogate is read with the low surrogate
    that has to follow it. *)
Fixpoint unescape (l : list byte) : option (list byte * list byte) :=
  match l with
  | [] => None
  | b :: r =>
      if Byte.eqb b QUOTE then Some ([], r)
      else if Byte.eqb b BACKSLASH then
        match r with
        | [] => None
        | e :: r' =>
            if Byte.eqb e x75 then
              match r' with
              | h1 :: h2 :: h3 :: h4 :: r'' =>
                  match hex4 h1 h2 h3 h4 with
                  | Some c =>
                      if ((c <? 55296) || (57343 <? c))%N then
                        cons_fst (utf8 c) (unescape r'')
                      else if (c <? 56320)%N then
                        match r'' with
                        | b1 :: b2 :: g1 :: g2 :: g3 :: g4 :: r3 =>
                            if Byte.eqb b1 BACKSLASH && Byte.eqb b2 x75 then
                              match hex4 g1 g2 g3 g4 with
                              | Some d =>
                                  if ((56320 <=? d) && (d <=? 57343))%N then
                                    cons_fst
                                      (utf8 (65536 + (c - 55296) * 1024
                                             + (d - 56320))%N)
                                      (unescape r3)
                                  else None
                              | None => None
                              end
                            else None
                        | _ => None
                        end
                      else None
                  | None => None
                  end
              | _ => None
              end
            else
              match unescape_char e with
              | Some c => cons_fst [c] (unescape r')
              | None => None
              end
        end
      else if control b then None
      else cons_fst [b] (unescape r)
  end.

(** Well-formed UTF-8 (the Unicode standard, table 3-7; Go's [utf8.Valid]):
    after a first byte, the ranges the bytes that follow it have to lie
    in. No range is given for a byte that begins no sequence. *)
Definition utf8_tail (b : byte) : option (list (N * N)) :=
  let n := Byte.to_N b in
  if (n <? 128)%N then Some []
  else if (n <? 194)%N then None
  else if (n <? 224)%N then Some [(128, 191)]%N
  else if (n =? 224)%N then Some [(160, 191); (128, 191)]%N
  else if (n =? 237)%N then Some [(128, 159); (128, 191)]%N
  else if (n <? 240)%N then Some [(128, 191); (128, 191)]%N
  else if (n =? 240)%N then Some [(144, 191); (128, 191); (128, 191)]%N
  else if (n <? 244)%N then Some [(128, 191); (128, 191); (128, 191)]%N
  else if (n =? 244)%N then Some [(128, 143); (128, 191); (128, 191)]%N
  else None.

(** [pending]: the ranges of the bytes that are still to come in the
    sequence begun. *)
Fixpoint utf8_from (pending : list (N * N)) (l : list byte) : bool :=
  match l, pending with
  | [], [] => true
  | [], _ :: _ => false
  | b :: r, (lo, hi) :: pending' =>
      (lo <=? Byte.to_N b)%N && (Byte.to_N b <=? hi)%N && utf8_from pending' r
  | b :: r, [] =>
      match utf8_tail b with
      | Some p => utf8_from p r
      | None => false
      end
  end.

Definition utf8_valid (l : list byte) : bool := utf8_from [] l.

(** A JSON string at the head of [l]: its value and the rest of [l]. *)
Definition json_string (l : list byte) : option (list byte * list byte) :=
  match l with
  | b :: r =>
      if Byte.eqb b QUOTE then
        match unescape r with
        | Some (value, rest) =>
            if utf8_valid value then Some (value, rest) else None
        | None => None
        end
      else None
  | [] => None
  end.

(** ** The store wrapper: [Collection.FindOne] *)

Module Store.

Inductive error :=
| ErrNoDocuments                  (* mongodb.ErrNoDocuments *)
| DriverError (msg : string)      (* any other error of the driver *)
| WithStack (cause : error).      (* errors.WithStack(cause) *)

(** [mongodb.SingleResult]: the error it holds ([Err()]) and its raw
    document. *)
Record SingleResult := {
  Err : option error;
  raw : list byte
}.

Record decoder := Decoder { result : SingleResult }.

Section Collection.

Variable Filter : Type.
(** [c.c.FindOne(ctx, filter, opts...)] of the driver *)
Variable driver_FindOne : Filter -> SingleResult.

Definition FindOne (filter : Filter) : decoder * option error :=
  let singleResult := driver_FindOne filter in
  let err := Err singleResult in
  match err with
  | Some e =>
      match e with
      | ErrNoDocuments => (Decoder singleResult, None)
      | _ => (Decoder singleResult, Some (WithStack e))
      end
  | None => (Decoder singleResult, err)
  end.

End Collection.

End Store.

(** ** Further notions for the properties of the transcoder *)

(** The slots of the stack up to the stack pointer hold closing
    delimiters, the slots above it hold the zero byte. *)
Definition stack_shape (st : state) : Prop :=
  forall i b, stack st !! i = Some b ->
    if (Z.of_nat i <=? stackptr st)%Z
    then b = RBRACE \/ b = RBRACKET
    else b = Terminal.

(** [hex.DecodeString], on text of even length *)
Fixpoint DecodeString (l : list byte) : option (list byte) :=
  match l with
  | [] => Some []
  | h :: l' =>
      match l' with
      | [] => None
      | lo :: l'' =>
          match hexval h, hexval lo, DecodeString l'' with
          | Some a, Some b, Some r => Some (byte_of_N (a * 16 + b) :: r)
          | _, _, _ => None
          end
      end
  end.

Definition lower_hex (b : byte) : bool :=
  let n := Byte.to_N b in
  ((48 <=? n) && (n <=? 57) || (97 <=? n) && (n <=? 102))%N.

(** The number of bytes the [case] of a tag takes from the input with a
    slice expression, right after the field name. *)
Definition sliced_width (tag : byte) : option nat :=
  match tag with
  | Float64 | UnixTimeMillis | Int64 => Some 8
  | String_ | Int32 => Some 4
  | ObjectId => Some 12
  | _ => None
  end.

(** ** Documents as trees

    The input format the switch of [ToJson] takes apart, for the element
    types it decodes: a document is a list of named values, a value is a
    scalar with its payload bytes, an embedded document or an array. *)

Inductive value :=
| VFloat (payload : list byte)
| VString (s : list byte)
| VObject (size : list byte) (es : elements)
| VArray (size : list byte) (es : elements)
| VObjectId (payload : list byte)
| VBoolean (b : byte)
| VDateTime (payload : list byte)
| VNull
| VInt32 (payload : list byte)
| VInt64 (payload : list byte)
with elements :=
| ENil
| ECons (name : list byte) (v : value) (rest : elements).

Scheme value_elements_ind := Induction for value Sort Prop
  with elements_value_ind := Induction for elements Sort Prop.

Definition tag_of (v : value) : byte :=
  match v with
  | VFloat _ => Float64
  | VString _ => String_
  | VObject _ _ => Object
  | VArray _ _ => Array
  | VObjectId _ => ObjectId
  | VBoolean _ => Boolean
  | VDateTime _ => UnixTimeMillis
  | VNull => Null
  | VInt32 _ => Int32
  | VInt64 _ => Int64
  end.

(** The bytes of a value after its tag and name, and the bytes of a list
    of elements; a container is the four bytes of its length field, its
    elements and a zero. The tree keeps the length field as it stands in
    the input. *)
Fixpoint encode_payload (v : value) : list byte :=
  match v with
  | VFloat p | VObjectId p | VDateTime p | VInt32 p | VInt64 p => p
  | VString s => le32 (N.of_nat (length s + 1)) ++ s ++ [Terminal]
  | VObject size es | VArray size es =>
      size ++ encode_elements es ++ [Terminal]
  | VBoolean b => [b]
  | VNull => []
  end
with encode_elements (es : elements) : list byte :=
  match es with
  | ENil => []
  | ECons name v rest =>
      tag_of v :: name ++ Terminal :: encode_payload v ++ encode_elements rest
  end.

Definition encode_document (size : list byte) (es : elements) : list byte :=
  size ++ encode_elements es ++ [Terminal].

(** The length field of a container with the given elements, as an
    encoder writes it. *)
Definition size_of (es : elements) : list byte :=
  le32 (N.of_nat (4 + length (encode_elements es) + 1)).

(** Payloads and length fields have the width of their type, a string
    fits its 32-bit length, and no name holds a zero byte. *)
Fixpoint wf_value (v : value) : Prop :=
  match v with
  | VFloat p | VDateTime p | VInt64 p => length p = 8
  | VInt32 p => length p = 4
  | VObjectId p => length p = 12
  | VString s => (N.of_nat (length s + 1) < 2 ^ 32)%N
  | VObject size es | VArray size es => length size = 4 /\ wf_elements es
  | VBoolean _ | VNull => True
  end
with wf_elements (es : elements) : Prop :=
  match es with
  | ENil => True
  | ECons name v rest =>
      Forall (fun b => b <> Terminal) name /\ wf_value v /\ wf_elements rest
  end.

(** How many containers are open at most inside a value. *)
Fixpoint depth_value (v : value) : nat :=
  match v with
  | VObject _ es | VArray _ es => S (depth_elements es)
  | _ => 0
  end
with depth_elements (es : elements) : nat :=
  match es with
  | ENil => 0
  | ECons _ v rest => Nat.max (depth_value v) (depth_elements rest)
  end.

Section Rendering.

Variable FormatFloat : N -> list byte.
Variable FormatRFC3339Nano : Z -> list byte.

(** The text of a document tree: members in order, separated by commas,
    with their names in a document and without them in an array. *)
Fixpoint render_value (v : value) : list byte :=
  match v with
  | VFloat p => FormatFloat (le_uint p)
  | VString s => QUOTE :: flat_map escape_byte s ++ [QUOTE]
  | VObject _ es => LBRACE :: render_elements true es ++ [RBRACE]
  | VArray _ es => LBRACKET :: render_elements false es ++ [RBRACKET]
  | VObjectId p => QUOTE :: EncodeToString p ++ [QUOTE]
  | VBoolean b =>
      if Byte.eqb b True_ then bytes_of "true" else bytes_of "false"
  | VDateTime p =>
      QUOTE :: FormatRFC3339Nano
                 (wrap_int64 (to_signed 64 (le_uint p) * 1000000)) ++ [QUOTE]
  | VNull => bytes_of "null"
  | VInt32 p | VInt64 p => FormatUint (le_uint p)
  end
with render_elements (in_document : bool) (es : elements) : list byte :=
  match es with
  | ENil => []
  | ECons name v rest =>
      (if in_document then QUOTE :: name ++ [QUOTE; COLON] else [])
        ++ render_value v
        ++ match rest with
           | ENil => []
           | ECons _ _ _ => [COMMA]
           end
        ++ render_elements in_document rest
  end.

Definition render_document (es : elements) : list byte :=
  LBRACE :: render_elements true es ++ [RBRACE].

End Rendering.

(** A value that is not a container. *)
Definition scalar (v : value) : Prop :=
  match v with
  | VObject _ _ | VArray _ _ => False
  | _ => True
  end.

(** The delimiter that closes a frame, the quoted name written in a
    document frame, and the comma written when another element follows. *)
Definition closer (in_document : bool) : byte :=
  if in_document then RBRACE else RBRACKET.

Definition key_text (in_document : bool) (name : list byte) : list byte :=
  if in_document then QUOTE :: name ++ [QUOTE; COLON] else [].

Definition separator (rest : list byte) : list byte :=
  match rest with
  | b :: _ => if Byte.eqb b Terminal then [] else [COMMA]
  | [] => []
  end.

(** A state of the loop inside the frame at slot [sp], which closes with
    [c]: the slots above it are clear. *)
Definition at_frame (st : state) (sp : nat) (c : byte) : Prop :=
  stackptr st = Z.of_nat sp /\ length (stack st) = 64 /\
  stack st !! sp = Some c /\
  forall i, sp < i -> i < 64 -> stack st !! i = Some Terminal.

Section Decoding.

Variable FormatFloat : N -> list byte.
Variable FormatRFC3339Nano : Z -> list byte.

(** From a state at the tag of an element with value [v], inside a frame
    with room for the containers of [v], the loop comes to the state
    after the element: the cursor behind its payload, its text (and the
    comma, if an element follows) written, the stack as it was. *)
Definition value_decodes (v : value) : Prop :=
  forall bs pre name rest st sp in_document,
    elems bs
      = pre ++ tag_of v :: name ++ Terminal :: encode_payload v ++ rest ->
    Forall (fun b => b <> Terminal) name -> wf_value v ->
    sp + depth_value v <= 63 ->
    idx st = length pre -> at_frame st sp (closer in_document) ->
    run FormatFloat FormatRFC3339Nano bs st
      = run FormatFloat FormatRFC3339Nano bs
          (State (length pre + 2 + length name + length (encode_payload v))
             (jsonbytes st ++ key_text in_document name
                ++ render_value FormatFloat FormatRFC3339Nano v
                ++ separator rest)
             (stack st) (stackptr st)).

(** The same for the elements of a container, up to its terminal byte. *)
Definition elements_decode (es : elements) : Prop :=
  forall bs pre rest st sp in_document,
    elems bs = pre ++ encode_elements es ++ Terminal :: rest ->
    wf_elements es -> sp + depth_elements es <= 63 ->
    idx st = length pre -> at_frame st sp (closer in_document) ->
    run FormatFloat FormatRFC3339Nano bs st
      = run FormatFloat FormatRFC3339Nano bs
          (State (length pre + length (encode_elements es))
             (jsonbytes st
                ++ render_elements FormatFloat FormatRFC3339Nano
                     in_document es)
             (stack st) (stackptr st)).

End Decoding.

(** A byte that is neither a minus sign nor an opening delimiter, as the
    decimal digits are. *)
Definition digit (b : byte) : Prop :=
  b <> x2d /\ b <> LBRACE /\ b <> LBRACKET.

(** Text that does not end with an opening delimiter (and is not empty). *)
Definition closed_text (text : list byte) : Prop :=
  exists b, last text = Some b /\ b <> LBRACE /\ b <> LBRACKET.

(** ** More sample inputs *)

(** The empty document followed by one more zero byte. *)
Definition padded_document : list byte := empty_document ++ [Terminal].

(** An input that ends inside the name of its first element, and one that
    ends inside the payload of a 32-bit integer. *)
Definition cut_in_name : list byte := le32 12 ++ [Int32; x61].
Definition cut_in_payload : list byte :=
  le32 12 ++ [Int32; x61; Terminal; x07; x00].

(** [{"a": ObjectId("0123456789abcdef01234567")}] *)
Definition object_id_payload : list byte :=
  [x01; x23; x45; x67; x89; xab; xcd; xef; x01; x23; x45; x67].
Definition object_id_document : list byte :=
  document1 ObjectId [x61] object_id_payload.

(** The tree of [{"a": [7, "x"], "b": {"c": true}, "d": null}]. *)
Definition sample_array : elements :=
  ECons [x30] (VInt32 [x07; x00; x00; x00])
    (ECons [x31] (VString [x78]) ENil).
Definition sample_inner : elements :=
  ECons [x63] (VBoolean True_) ENil.
Definition sample_tree : elements :=
  ECons [x61] (VArray (size_of sample_array) sample_array)
    (ECons [x62] (VObject (size_of sample_inner) sample_inner)
       (ECons [x64] VNull ENil)).

(** The width of the payload of a scalar of fixed width. *)
Definition fixed_width (v : value) : option nat :=
  match v with
  | VFloat _ | VDateTime _ | VInt64 _ => Some 8
  | VInt32 _ => Some 4
  | VObjectId _ => Some 12
  | _ => None
  end.

(** An input that ends inside the payload of a 32-bit integer, in an
    array with two more bytes behind the end of the slice. *)
Definition spare_bytes : list byte := [x01; x00; xff].

(** ** Struct tags: [bsoncv/bsontags.go] *)

Module Tags.

Local Open Scope string_scope.

(** [strings.Split(s, sep)] for a separator of one byte: the pieces of [s]
    between the separators, at least one piece. *)
Fixpoint Split (sep : Ascii.ascii) (s : string) : list string :=
  match s with
  | EmptyString => [EmptyString]
  | String c s' =>
      if Ascii.eqb c sep then EmptyString :: Split sep s'
      else match Split sep s' with
           | part :: parts => String c part :: parts
           | [] => [String c EmptyString]
           end
  end.

(** Whether the byte [c] occurs in [s]. *)
Fixpoint contains (c : Ascii.ascii) (s : string) : bool :=
  match s with
  | EmptyString => false
  | String a s' => Ascii.eqb a c || contains c s'
  end.

(** [parts[i]], where the code has checked [len(parts) > i] *)
Definition part (parts : list string) (i : nat) : string :=
  default "" (parts !! i).

(** [type convType int] with its four constants *)
Inductive convType := invalid | oid | date | json.

Definition convTypeNames : list string := [""; "$oid"; "$date"; "$json"].

(** [convType(i)] for an index of [convTypeNames] *)
Definition convType_of_index (i : nat) : convType :=
  match i with
  | 1 => oid
  | 2 => date
  | 3 => json
  | _ => invalid
  end.

Definition index_of_convType (c : convType) : nat :=
  match c with
  | invalid => 0
  | oid => 1
  | date => 2
  | json => 3
  end.

(** [for i, name := range names { if name == t { return convType(i) } }] *)
Fixpoint find_name (names : list string) (i : nat) (t : string)
  : option convType :=
  match names with
  | [] => None
  | name :: names' =>
      if String.eqb name t then Some (convType_of_index i)
      else find_name names' (S i) t
  end.

Definition parseConvType (t : string) : convType :=
  match find_name convTypeNames 0 t with
  | Some c => c
  | None => invalid
  end.

Definition convType_eqb (a b : convType) : bool :=
  Nat.eqb (index_of_convType a) (index_of_convType b).

Record bsonConvTag := {
  conv : convType;
  omitempty : bool;
  datefmt : string
}.

(** The layouts of Go's [time] package that [timeFormats] names. *)
Definition timeFormats : gmap string string :=
  list_to_map
    [ ("ANSIC", "Mon Jan _2 15:04:05 2006");
      ("UnixDate", "Mon Jan _2 15:04:05 MST 2006");
      ("RubyDate", "Mon Jan 02 15:04:05 -0700 2006");
      ("RFC822", "02 Jan 06 15:04 MST");
      ("RFC822Z", "02 Jan 06 15:04 -0700");
      ("RFC850", "Monday, 02-Jan-06 15:04:05 MST");
      ("RFC1123", "Mon, 02 Jan 2006 15:04:05 MST");
      ("RFC1123Z", "Mon, 02 Jan 2006 15:04:05 -0700");
      ("RFC3339", "2006-01-02T15:04:05Z07:00");
      ("RFC3339Nano", "2006-01-02T15:04:05.999999999Z07:00");
      ("Kitchen", "3:04PM");
      ("Stamp", "Jan _2 15:04:05");
      ("StampMilli", "Jan _2 15:04:05.000");
      ("StampMicro", "Jan _2 15:04:05.000000");
      ("StampNano", "Jan _2 15:04:05.000000000") ].

Definition RFC3339Milli : string := "2006-01-02T15:04:05.000Z07:00".

Definition parseBsonConvTag (tag : string) : bsonConvTag :=
  let parts := Split ","%char tag in
  let conv :=
    if (1 <? length parts)%nat then parseConvType (part parts 1) else invalid in
  let omitempty :=
    if (2 <? length parts)%nat
    then negb (String.eqb (part parts 2) "")
    else false in
  let datefmt :=
    if (3 <? length parts)%nat then
      if convType_eqb conv date then
        match timeFormats !! part parts 3 with
        | Some f => f
        | None => part parts 3
        end
      else ""
    else "" in
  {| conv := conv; omitempty := omitempty; datefmt := datefmt |}.

(** A named layout stands for its layout, any other text for itself. *)
Definition layout_of (fmt : string) : string :=
  match timeFormats !! fmt with
  | Some f => f
  | None => fmt
  end.

Section Convert.

(** [primitive.ObjectID], [time.Time] and [error], with the two library
    calls of [convertString], each returning a value and an error. *)
Variables ObjectID Time error : Type.
Variable ObjectIDFromHex : string -> ObjectID * option error.
Variable time_Parse : string -> string -> Time * option error.

(** What [convertString] hands back as [interface{}] *)
Inductive converted :=
| AsObjectID (id : ObjectID)
| AsTime (t : Time)
| AsString (s : string).

Definition convertString (b : bsonConvTag) (v : string)
  : converted * option error :=
  if convType_eqb (conv b) oid then
    let (id, err) := ObjectIDFromHex v in (AsObjectID id, err)
  else if convType_eqb (conv b) date then
    let fmt := RFC3339Milli in
    let fmt :=
      if negb (String.eqb (datefmt b) "") then
        match timeFormats !! datefmt b with
        | Some tfmt => tfmt
        | None => datefmt b
        end
      else fmt in
    let (t, err) := time_Parse fmt v in (AsTime t, err)
  else (AsString v, None).

End Convert.

(** [time.Time] as [convertToTime] builds it: the zero value, or
    [time.Unix(sec, nsec)]. *)
Inductive GoTime :=
| TimeZero
| TimeUnix (sec nsec : Z).

(** Nanoseconds from the Unix epoch to the instant: [time.Unix] takes any
    [nsec] and adds it to the seconds; the zero [Time] is the first
    instant of the year 1. *)
Definition unix_nanos (t : GoTime) : Z :=
  match t with
  | TimeZero => (-62135596800 * 1000000000)%Z
  | TimeUnix sec nsec => (sec * 1000000000 + nsec)%Z
  end.

(** [v/1000] and [v%1000] truncate toward zero; [int64(time.Millisecond)]
    is 1000000. *)
Definition convertToTime (v : Z) : GoTime :=
  if (v =? 0)%Z then TimeZero
  else TimeUnix (Z.quot v 1000) (wrap_int64 (Z.rem v 1000 * 1000000)).

Section FieldName.

(** [strings.TrimSpace] *)
Variable TrimSpace : string -> string.

(** [reflect.StructField]: the name of the field and [f.Tag.Get]. *)
Record StructField := {
  Name : string;
  Tag_Get : string -> string
}.

(** The body of the loop over the tag keys: the name after the key. *)
Definition fieldName_step (f : StructField) (name key : string) : string :=
  let b := Tag_Get f key in
  if negb (String.eqb b "") then
    let components := Split ","%char b in
    if (0 <? length components)%nat then
      let n := TrimSpace (part components 0) in
      if negb (String.eqb n "") then
        if negb (String.eqb key "json" && String.eqb n "-") then n else name
      else name
    else name
  else name.

Definition fieldName (f : StructField) : string :=
  fold_left (fieldName_step f) ["json"; "bson"; "bsoncv"] (Name f).

(** The name a tag gives: the trimmed text before its first comma. *)
Definition tag_name (f : StructField) (key : string) : string :=
  if String.eqb (Tag_Get f key) "" then ""
  else TrimSpace (part (Split ","%char (Tag_Get f key)) 0).

End FieldName.

End Tags.

(** ** The store wrapper: [decoder.DecodeBytes] and [Collection.InsertOne] *)

Module Wrapper.

(** An error of the driver with the context the wrapper adds:
    [errors.Wrap(cause, msg)]. *)
Inductive wrapped := Wrap (cause : Store.error) (msg : string).

(** A call that returns [a] or panics. *)
Inductive call (A : Type) :=
| Returns (a : A)
| Panics (p : option panic).   (* [None]: a panic with a message *)
Arguments Returns {A} a.
Arguments Panics {A} p.

Section Decoder.

Variable FormatFloat : N -> list byte.
Variable FormatRFC3339Nano : Z -> list byte.

(** [decoder.DecodeBytes], on what [m.SingleResult.DecodeBytes()] gives:
    the raw document and an error. The result is the text ([None] for
    the nil slice) and the error. *)
Definition DecodeBytes (driver : slice * option Store.error)
  : option (call (option (list byte) * option wrapped)) :=
  let (data, err) := driver in
  match err with
  | Some e => Some (Returns (None, Some (Wrap e "failed to decode bytes")))
  | None =>
      match ToJson FormatFloat FormatRFC3339Nano data with
      | Some (Returned out) => Some (Returns (Some out, None))
      | Some (Panicked p) => Some (Panics (Some p))
      | None => None
      end
  end.

End Decoder.

(** [insertResult.InsertedID]: a [primitive.ObjectID], 12 bytes, or a
    value of another type. *)
Inductive InsertedID :=
| IsObjectID (id : list byte)
| NotObjectID.

(** [Collection.InsertOne], on what [c.c.InsertOne] gives: the inserted
    id and an error. [id.Hex()] is [hex.EncodeToString(id[:])]. *)
Definition InsertOne (driver : InsertedID * option Store.error)
  : call (list byte * option Store.error) :=
  let (inserted, err) := driver in
  match err with
  | Some e => Returns ([], Some (Store.WithStack e))
  | None =>
      match inserted with
      | IsObjectID id => Returns (EncodeToString id, None)
      | NotObjectID => Panics None
      end
  end.

End Wrapper.


(** * Properties *)

(** ** The result monad and the readers *)

Lemma bind_Ok {A B} (r : res A) (k : A -> res B) b :
  bind r k = Ok b -> exists a, r = Ok a /\ k a = Ok b.
Proof. destruct r as [a|p]; simpl; [eauto | discriminate]. Qed.

Lemma flow_of_Continue r st : flow_of r = Continue st -> r = Ok st.
Proof. destruct r; simpl; congruence. Qed.

Ltac inv_bind H :=
  repeat (let a := fresh "a" in let E := fresh "E" in
          apply bind_Ok in H as (a & E & H)).

Lemma index_Ok bs i b : index bs i = Ok b <-> elems bs !! i = Some b.
Proof. unfold index. destruct (elems bs !! i); split; congruence. Qed.

Lemma index_lt bs i b : index bs i = Ok b -> i < len bs.
Proof. intros H. apply index_Ok in H. apply lookup_lt_Some in H. exact H. Qed.

Lemma find_terminal_Ok l from end_ :
  find_terminal l from = Ok end_ ->
  from <= end_ < from + length l /\ l !! (end_ - from) = Some Terminal.
Proof.
  revert from. induction l as [|b l IH]; intros from; simpl; [discriminate|].
  destruct (Byte.eqb b x00) eqn:Hb.
  - intros [= <-]. apply Byte.byte_dec_bl in Hb. subst b.
    rewrite Nat.sub_diag. split; [lia | reflexivity].
  - intros H. apply IH in H as [H1 H2]. split; [lia|].
    replace (end_ - from) with (S (end_ - S from)) by lia. exact H2.
Qed.

Lemma scan_name_Ok bs from end_ :
  scan_name bs from = Ok end_ ->
  from <= end_ < len bs /\ elems bs !! end_ = Some Terminal.
Proof.
  unfold scan_name. intros H. apply find_terminal_Ok in H as [H1 H2].
  rewrite length_drop in H1. rewrite lookup_drop in H2.
  unfold len. split; [lia|].
  replace (from + (end_ - from)) with end_ in H2 by lia. exact H2.
Qed.

Lemma stack_top_Ok st b :
  stack_top st = Ok b ->
  (0 <= stackptr st)%Z /\ Z.to_nat (stackptr st) < length (stack st).
Proof.
  unfold stack_top. destruct (0 <=? stackptr st)%Z eqn:H0; [|discriminate].
  destruct (stack st !! Z.to_nat (stackptr st)) eqn:Hl; [|discriminate].
  intros _. apply lookup_lt_Some in Hl. split; [lia | exact Hl].
Qed.

Lemma stack_store_Ok st b st' :
  stack_store st b = Ok st' ->
  (0 <= stackptr st)%Z /\ Z.to_nat (stackptr st) < length (stack st) /\
  st' = State (idx st) (jsonbytes st)
          (<[Z.to_nat (stackptr st) := b]> (stack st)) (stackptr st).
Proof.
  unfold stack_store.
  destruct (0 <=? stackptr st)%Z eqn:H0; simpl; [|discriminate].
  destruct (Z.to_nat (stackptr st) <? length (stack st)) eqn:H1; [|discriminate].
  intros [= <-]. apply Nat.ltb_lt in H1. repeat split; [lia | exact H1].
Qed.

(** The escape loop reads [n] bytes from [i] on and appends the escape of
    each one. *)
Lemma escape_loop_spec n bs i out :
  escape_loop n bs i out =
    if (n =? 0) || (i + n <=? len bs)
    then Ok (out ++ flat_map escape_byte (take n (drop i (elems bs))))
    else Panic IndexOutOfRange.
Proof.
  revert i out. induction n as [|n IH]; intros i out; simpl.
  - now rewrite app_nil_r.
  - unfold index. destruct (elems bs !! i) as [b|] eqn:Hb; simpl.
    + rewrite IH. apply lookup_lt_Some in Hb as Hlt. unfold len.
      replace ((n =? 0) || (S i + n <=? length (elems bs)))
        with (i + S n <=? length (elems bs)).
      * destruct (i + S n <=? length (elems bs)); [|reflexivity].
        rewrite (drop_S _ _ _ Hb). simpl. now rewrite <- app_assoc.
      * destruct n; cbn [Nat.eqb orb].
        -- apply Nat.leb_le. lia.
        -- f_equal. lia.
    + apply lookup_ge_None in Hb. unfold len.
      destruct (i + S n <=? length (elems bs)) eqn:Hle; [|reflexivity].
      apply Nat.leb_le in Hle. lia.
Qed.

(** What the common block of the element cases does to the state. *)
Lemma element_key_Ok bs st st1 :
  element_key bs st = Ok st1 ->
  exists end_ key,
    scan_name bs (S (idx st)) = Ok end_ /\
    idx st1 = end_ + 1 /\
    jsonbytes st1 = jsonbytes st ++ key /\
    stack st1 = stack st /\ stackptr st1 = stackptr st /\
    (0 <= stackptr st)%Z /\ Z.to_nat (stackptr st) < length (stack st).
Proof.
  unfold element_key. intros H. inv_bind H.
  apply stack_top_Ok in E0 as [Hp Hl].
  injection H as <-.
  destruct (Byte.eqb a0 x7d).
  - inv_bind E1. injection E1 as <-.
    exists a, (x22 :: a2 ++ [x22; x3a]). simpl. repeat split; auto.
  - injection E1 as <-. exists a, []. simpl. rewrite app_nil_r.
    repeat split; auto.
Qed.

Section Facts.

Variable FormatFloat : N -> list byte.
Variable FormatRFC3339Nano : Z -> list byte.

Local Abbreviation dispatch := (dispatch FormatFloat FormatRFC3339Nano).
Local Abbreviation iteration := (iteration FormatFloat FormatRFC3339Nano).
Local Abbreviation loop := (loop FormatFloat FormatRFC3339Nano).
Local Abbreviation run := (run FormatFloat FormatRFC3339Nano).
Local Abbreviation ToJson := (ToJson FormatFloat FormatRFC3339Nano).
Local Abbreviation reachable := (reachable FormatFloat FormatRFC3339Nano).

(** Every iteration that goes on moves the cursor forward, reads the top
    frame, and moves the stack pointer by at most one. *)
Lemma dispatch_Continue bs st st' :
  dispatch bs st = Continue st' ->
  idx st < idx st' /\
  length (stack st') = length (stack st) /\
  (0 <= stackptr st)%Z /\
  (stackptr st - 1 <= stackptr st' <= stackptr st + 1)%Z /\
  ((stackptr st' = stackptr st + 1)%Z ->
   Z.to_nat (stackptr st') < length (stack st)) /\
  exists text, jsonbytes st' = jsonbytes st ++ text.
Proof.
  unfold dispatch. destruct (index bs (idx st)) as [tag|] eqn:Hi; [|discriminate].
  intros H.
  destruct tag; try discriminate H;
    apply flow_of_Continue in H; inv_bind H;
    try (apply element_key_Ok in E
           as (end_ & key & Hs & Hi1 & Hj & Hst & Hsp & Hp0 & Hpl);
         apply scan_name_Ok in Hs as [Hs _]).
  all: try (injection H as <-; simpl; rewrite ?Hst, ?Hsp, ?Hj, <- ?app_assoc;
            repeat split; eauto; lia).
  - (* Terminal *)
    apply stack_top_Ok in E as [Hp0 Hpl]. simpl in *.
    apply stack_store_Ok in E0 as (_ & _ & ->). injection H as <-. simpl.
    rewrite length_insert. repeat split; eauto; lia.
  - (* String *)
    rewrite escape_loop_spec in E1.
    destruct (_ || _) in E1; [|discriminate]. injection E1 as <-.
    injection H as <-. simpl. rewrite ?Hst, ?Hsp, ?Hj, <- ?app_assoc.
    repeat split; eauto; lia.
  - (* Object *)
    apply stack_store_Ok in E0 as (Hq0 & Hql & ->). injection H as <-.
    simpl in *. rewrite length_insert, ?Hst, ?Hsp, ?Hj, <- ?app_assoc in *.
    repeat split; eauto; lia.
  - (* Array *)
    apply stack_store_Ok in E0 as (Hq0 & Hql & ->). injection H as <-.
    simpl in *. rewrite length_insert, ?Hst, ?Hsp, ?Hj, <- ?app_assoc in *.
    repeat split; eauto; lia.
Qed.

Lemma add_comma_Ok bs st st' :
  add_comma bs st = Ok st' ->
  st' = st \/ st' = emit st [COMMA].
Proof.
  unfold add_comma. destruct (idx st <? len bs); [|intros [= <-]; now left].
  intros H. inv_bind H. destruct (negb (Byte.eqb a x00)).
  - inv_bind H. destruct (negb (Byte.eqb a0 x7b)).
    + inv_bind H. destruct (negb (Byte.eqb a1 x5b)); injection H as <-; auto.
    + injection H as <-; auto.
  - injection H as <-; auto.
Qed.

Lemma iteration_Continue bs st st' :
  iteration bs st = Continue st' ->
  idx st < idx st' /\
  length (stack st') = length (stack st) /\
  (0 <= stackptr st)%Z /\
  (stackptr st - 1 <= stackptr st' <= stackptr st + 1)%Z /\
  ((stackptr st' = stackptr st + 1)%Z ->
   Z.to_nat (stackptr st') < length (stack st)) /\
  exists text, jsonbytes st' = jsonbytes st ++ text.
Proof.
  unfold iteration. destruct (dispatch bs st) as [st1| |] eqn:Hd; try discriminate.
  intros H. apply flow_of_Continue, add_comma_Ok in H.
  apply dispatch_Continue in Hd as (H1 & H2 & H3 & H4 & H5 & text & H6).
  destruct H as [-> | ->]; simpl; repeat split; eauto; try lia.
  exists (text ++ [x2c]). now rewrite H6, app_assoc.
Qed.

(** ** The loop always comes to an end *)

Lemma loop_fuel bs fuel st :
  len bs - idx st <= fuel ->
  exists o, forall fuel', len bs - idx st <= fuel' -> loop fuel' bs st = Some o.
Proof.
  revert st. induction fuel as [|fuel IH]; intros st Hf.
  - exists (Returned (jsonbytes st)). intros fuel' _.
    assert ((idx st <? len bs) = false) as E by (apply Nat.ltb_ge; lia).
    destruct fuel'; simpl; now rewrite E.
  - destruct (idx st <? len bs) eqn:E.
    + apply Nat.ltb_lt in E as Hlt.
      destruct (iteration bs st) as [st'|out|p] eqn:Hit.
      * apply iteration_Continue in Hit as Hc. destruct Hc as [Hi _].
        destruct (IH st') as [o Ho]; [lia|].
        exists o. intros [|fuel'] Hf'; [lia|]. simpl. rewrite E, Hit.
        apply Ho. lia.
      * exists (Returned out). intros [|fuel'] Hf'; [lia|]. simpl.
        now rewrite E, Hit.
      * exists (Panicked p). intros [|fuel'] Hf'; [lia|]. simpl.
        now rewrite E, Hit.
    + exists (Returned (jsonbytes st)). intros fuel' _.
      destruct fuel'; simpl; now rewrite E.
Qed.

Lemma loop_run bs fuel st :
  len bs - idx st <= fuel -> loop fuel bs st = run bs st.
Proof.
  intros Hf. destruct (loop_fuel bs fuel st Hf) as [o Ho].
  unfold run. rewrite (Ho fuel Hf). symmetry. apply Ho. lia.
Qed.

Lemma run_iteration bs st :
  idx st < len bs ->
  run bs st =
    match iteration bs st with
    | Continue st' => run bs st'
    | Return out => Some (Returned out)
    | Panics p => Some (Panicked p)
    end.
Proof.
  intros Hlt. unfold run at 1.
  destruct (len bs - idx st) as [|fuel] eqn:Hf; [lia|]. simpl.
  apply Nat.ltb_lt in Hlt as ->.
  destruct (iteration bs st) as [st'|out|p] eqn:Hit; try reflexivity.
  apply loop_run. apply iteration_Continue in Hit as [Hi _]. lia.
Qed.

Lemma run_end bs st :
  len bs <= idx st -> run bs st = Some (Returned (jsonbytes st)).
Proof.
  intros Hge. unfold run. replace (len bs - idx st) with 0 by lia. simpl.
  apply Nat.ltb_ge in Hge. now rewrite Hge.
Qed.

Lemma ToJson_run bs : len bs <> 0 -> ToJson bs = run bs initial.
Proof.
  intros Hn. unfold ToJson. apply Nat.eqb_neq in Hn as ->.
  apply loop_run. simpl. lia.
Qed.

(** The result of the call is the result of the loop from any state the
    call passes through. *)
Lemma reachable_run bs st : reachable bs st -> ToJson bs = run bs st.
Proof.
  induction 1 as [Hn | st st' Hr IH Hlt Hit].
  - now apply ToJson_run.
  - rewrite IH, (run_iteration bs st Hlt), Hit. reflexivity.
Qed.

(** [ToJson] always has an outcome: the bound of [loop] is never used up. *)
Lemma ToJson_total bs : exists o, ToJson bs = Some o.
Proof.
  unfold ToJson. destruct (len bs =? 0); [eauto|].
  destruct (loop_fuel bs (len bs) initial) as [o Ho]; [simpl; lia|].
  exists o. apply Ho. simpl. lia.
Qed.

(** ** The invariant of the loop *)

Lemma reachable_invariant bs st : reachable bs st -> invariant st.
Proof.
  induction 1 as [Hn | st st' Hr IH Hlt Hit].
  - repeat split; simpl; try lia. discriminate.
  - destruct IH as (Hl & Hp & Hj).
    apply iteration_Continue in Hit as (_ & H2 & H3 & H4 & H5 & text & H6).
    repeat split; try lia.
    rewrite H6. intros Habs. apply app_eq_nil in Habs as [? _]. contradiction.
Qed.

Lemma states_after_reachable n bs st st' :
  reachable bs st -> states_after FormatFloat FormatRFC3339Nano n bs st = Some st' ->
  reachable bs st'.
Proof.
  revert st. induction n as [|n IH]; intros st Hr; simpl.
  - now intros [= <-].
  - destruct (idx st <? len bs) eqn:E; [|discriminate].
    apply Nat.ltb_lt in E.
    destruct (iteration bs st) as [st2| |] eqn:Hit; try discriminate.
    apply IH. now apply (reach_iteration _ _ _ st st2).
Qed.

End Facts.

(** ** Reading behind a prefix of another length

    Two inputs that differ in a prefix only, the first prefix [k] bytes
    longer: every read at or after the second prefix sees, [k] places
    further on in the first input, the same bytes. *)

Section Shift.

Variables (p1 p2 rest spare : list byte) (k : nat).
Hypothesis Hk : length p1 = length p2 + k.

Let A := Slice (p1 ++ rest) spare.
Let B := Slice (p2 ++ rest) spare.






End Shift.

Lemma find_terminal_name name rest from :
  Forall (fun b => b <> Terminal) name ->
  find_terminal (name ++ Terminal :: rest) from = Ok (from + length name).
Proof.
  intros Hn. revert from. induction Hn as [|b name Hb _ IH]; intros from; simpl.
  - f_equal. lia.
  - destruct (Byte.eqb b x00) eqn:E.
    + apply Byte.byte_dec_bl in E. contradiction.
    + rewrite IH. f_equal. lia.
Qed.


(** ** Strings *)

(** Unescaping the escaped payload up to the closing quote gives back the
    payload, whatever follows the quote, unless the payload has a control
    character that is written as it is: then the reading stops at it. *)
Lemma unescape_escape payload rest :
  unescape (flat_map escape_byte payload ++ QUOTE :: rest)
    = if existsb bare_control payload then None else Some (payload, rest).
Proof.
  induction payload as [|b payload IH]; [reflexivity|].
  cbn [flat_map existsb]. rewrite <- app_assoc.
  destruct b; cbn -[flat_map existsb]; rewrite ?IH;
    try reflexivity; destruct (existsb bare_control payload); reflexivity.
Qed.

Lemma json_string_escape payload rest :
  json_string (QUOTE :: flat_map escape_byte payload ++ QUOTE :: rest)
    = if existsb bare_control payload then None
      else if utf8_valid payload then Some (payload, rest) else None.
Proof.
  unfold json_string. simpl Byte.eqb. cbv iota. rewrite unescape_escape.
  destruct (existsb bare_control payload); reflexivity.
Qed.

(** The control characters written as they are: all but the three with a
    [case]. *)
Lemma bare_control_cases b :
  bare_control b = true <-> control b = true /\ ~ In b escaped_bytes.
Proof.
  destruct b; cbn; intuition discriminate.
Qed.

(** Well-formed and ill-formed UTF-8: a two-byte and a four-byte sequence;
    a byte that begins no sequence, a sequence cut short, a sequence longer
    than its code point needs, and a surrogate. *)
Example utf8_valid_samples :
  utf8_valid [x63; xc3; xa9; xf0; x9f; x98; x80] = true /\
  utf8_valid [xff] = false /\ utf8_valid [xc3] = false /\
  utf8_valid [xc0; x80] = false /\ utf8_valid [xed; xa0; x80] = false.
Proof. repeat split. Qed.

(** The reader on escapes the transcoder does not write: a [\u] escape, a
    surrogate pair, and a high surrogate with nothing to pair with. *)
Example json_string_samples :
  json_string (QUOTE :: bytes_of "\u00e9\b" ++ [QUOTE])
    = Some ([xc3; xa9; x08], []) /\
  json_string (QUOTE :: bytes_of "\ud83d\ude00" ++ [QUOTE])
    = Some ([xf0; x9f; x98; x80], []) /\
  json_string (QUOTE :: bytes_of "\ud83d" ++ [QUOTE]) = None.
Proof. repeat split. Qed.

Lemma escape_byte_cases b :
  (In b escaped_bytes /\
   exists c, escape_byte b = [BACKSLASH; c] /\ unescape_char c = Some b) \/
  (~ In b escaped_bytes /\ escape_byte b = [b]).
Proof.
  destruct b;
    first [ right; split; [simpl; intuition discriminate | reflexivity]
          | left; split; [simpl; tauto | eexists; split; reflexivity] ].
Qed.

Lemma find_terminal_Panic l from p :
  find_terminal l from = Panic p -> p = IndexOutOfRange.
Proof.
  revert from. induction l as [|b l IH]; intros from; simpl; [congruence|].
  destruct (Byte.eqb b x00); [discriminate | apply IH].
Qed.

(** The common block panics only on an index: a name that runs to the end
    of the input, or a stack pointer below the stack. *)
Lemma element_key_Panic bs st p :
  element_key bs st = Panic p -> p = IndexOutOfRange.
Proof.
  unfold element_key.
  destruct (scan_name bs (S (idx st))) as [end_|q] eqn:Hs; cbn [bind].
  2:{ intros [= <-]. now apply find_terminal_Panic in Hs. }
  apply scan_name_Ok in Hs as [Hs _].
  unfold stack_top. destruct (0 <=? stackptr st)%Z; [|cbn [bind]; congruence].
  destruct (stack st !! Z.to_nat (stackptr st)) as [top|]; cbn [bind];
    [|congruence].
  destruct (Byte.eqb top x7d); cbn [bind]; [|discriminate].
  unfold subslice, cap. fold (len bs).
  replace ((S (idx st) <=? end_) && (end_ <=? len bs + length (backing bs)))
    with true; cbn [bind]; [discriminate|].
  symmetry. apply andb_true_iff. split; apply Nat.leb_le; lia.
Qed.

(** ** Integers *)

Lemma uint_bytes_digits d : Forall (fun b => b <> x2d) (uint_bytes d).
Proof. induction d; simpl; constructor; auto; discriminate. Qed.

(** [FormatUint] writes digits only, so its text is never the text of a
    negative number. *)
Lemma FormatUint_not_negative n z :
  (z < 0)%Z -> FormatUint n <> FormatInt z.
Proof.
  intros Hz Heq. unfold FormatInt in Heq.
  apply Z.ltb_lt in Hz. rewrite Hz in Heq.
  pose proof (uint_bytes_digits (N.to_uint n)) as Hd.
  unfold FormatUint in Heq at 1. rewrite Heq in Hd.
  inversion Hd as [|b l Hb _]. now apply Hb.
Qed.

Section Elements.

Variable FormatFloat : N -> list byte.
Variable FormatRFC3339Nano : Z -> list byte.

Local Abbreviation dispatch := (dispatch FormatFloat FormatRFC3339Nano).
Local Abbreviation iteration := (iteration FormatFloat FormatRFC3339Nano).
Local Abbreviation ToJson := (ToJson FormatFloat FormatRFC3339Nano).
Local Abbreviation reachable := (reachable FormatFloat FormatRFC3339Nano).

(** What the two integer cases write is the unsigned reading of the
    payload; for a payload that is negative as a two's-complement number
    this is not its decimal representation. *)
Lemma integer_element_unsigned bs st st1 tag width payload :
  index bs (idx st) = Ok tag ->
  (tag = Int32 /\ width = 4) \/ (tag = Int64 /\ width = 8) ->
  element_key bs st = Ok st1 ->
  subslice bs (idx st1) (idx st1 + width) = Ok payload ->
  dispatch bs st
    = Continue (with_idx (emit st1 (FormatUint (le_uint payload)))
                  (idx st1 + width)) /\
  forall w, (to_signed w (le_uint payload) < 0)%Z ->
    FormatUint (le_uint payload) <> FormatInt (to_signed w (le_uint payload)).
Proof.
  intros Hi Hw Hk Hp. split.
  - unfold dispatch. rewrite Hi.
    destruct Hw as [[-> ->] | [-> ->]]; rewrite Hk; cbn [bind]; rewrite Hp;
      reflexivity.
  - intros w. apply FormatUint_not_negative.
Qed.

(** C5, as the code has it: at a string element whose payload lies within
    the input, the [switch] writes the payload between double quotes, with
    the double quote, the backslash, the newline, the tab and the carriage
    return (and no other byte) replaced by their two-character escapes.
    Reading the quoted text back as a JSON string gives the payload bytes
    again when the payload is well-formed UTF-8 and has no control
    character but the three that are escaped; when it has another control
    character, which is written as it is, or is not well-formed UTF-8, the
    quoted text is no JSON string and the reading gives nothing. *)
Theorem string_element_round_trip bs st st1 prefix :
  index bs (idx st) = Ok String_ ->
  element_key bs st = Ok st1 ->
  subslice bs (idx st1) (idx st1 + 4) = Ok prefix ->
  idx st1 + 4 + (N.to_nat (le_uint prefix) - 1) <= len bs ->
  let n := N.to_nat (le_uint prefix) in
  let payload := take (n - 1) (drop (idx st1 + 4) (elems bs)) in
  let quoted := QUOTE :: flat_map escape_byte payload ++ [QUOTE] in
  dispatch bs st
    = Continue (State (idx st1 + 4 + n) (jsonbytes st1 ++ quoted)
                  (stack st1) (stackptr st1)) /\
  (existsb bare_control payload = false -> utf8_valid payload = true ->
   forall rest, json_string (quoted ++ rest) = Some (payload, rest)) /\
  (existsb bare_control payload = true \/ utf8_valid payload = false ->
   forall rest, json_string (quoted ++ rest) = None) /\
  (forall b, In b escaped_bytes ->
     exists c, escape_byte b = [BACKSLASH; c] /\ unescape_char c = Some b) /\
  (forall b, ~ In b escaped_bytes -> escape_byte b = [b]).
Proof.
  intros Hi Hk Hp Hb n payload quoted.
  assert (forall rest,
            json_string (quoted ++ rest)
              = if existsb bare_control payload then None
                else if utf8_valid payload then Some (payload, rest)
                     else None) as Hread.
  { intros rest. unfold quoted. cbn [app]. rewrite <- app_assoc.
    apply json_string_escape. }
  repeat split.
  - unfold dispatch. rewrite Hi, Hk. cbn [bind]. rewrite Hp. cbn [bind].
    fold n. rewrite escape_loop_spec.
    replace (idx st1 + 4 + n - 1 - (idx st1 + 4)) with (n - 1) by lia.
    replace ((n - 1 =? 0) || (idx st1 + 4 + (n - 1) <=? len bs)) with true.
    2:{ symmetry. apply orb_true_iff. right. apply Nat.leb_le. exact Hb. }
    cbn [bind flow_of]. do 2 f_equal. unfold quoted, payload.
    now rewrite <- !app_assoc.
  - intros Hc Hu rest. rewrite Hread, Hc, Hu. reflexivity.
  - intros [Hc|Hu] rest; rewrite Hread.
    + now rewrite Hc.
    + rewrite Hu. now destruct (existsb bare_control payload).
  - intros b Hin. destruct (escape_byte_cases b) as [[_ H]|[H _]];
      [exact H | contradiction].
  - intros b Hin. destruct (escape_byte_cases b) as [[H _]|[_ H]];
      [contradiction | exact H].
Qed.

(** C4, as the code has it: in every state of a call the stack pointer
    lies between -1 and 63, so that at most 64 frames are open; and when
    an embedded document or an array opens with 64 frames open already,
    the store into the 65th slot of the array panics with Go's
    index-out-of-range error: nothing is written outside the stack, and
    no error value is returned. *)
Theorem nesting_stack_bounded bs st :
  reachable bs st ->
  (-1 <= stackptr st <= 63)%Z /\ length (stack st) = 64 /\
  forall tag,
    idx st < len bs -> elems bs !! idx st = Some tag ->
    tag = Object \/ tag = Array -> stackptr st = 63%Z ->
    ToJson bs = Some (Panicked IndexOutOfRange).
Proof.
  intros Hr. pose proof (reachable_invariant _ _ _ _ Hr) as (Hl & Hp & _).
  repeat split; try lia.
  intros tag Hlt Htag Hk Hsp.
  rewrite (reachable_run _ _ _ _ Hr), (run_iteration _ _ _ _ Hlt).
  unfold iteration, dispatch. apply index_Ok in Htag. rewrite Htag.
  destruct (element_key bs st) as [st1|p] eqn:Hkey; cbn [bind flow_of].
  - apply element_key_Ok in Hkey
      as (end_ & key & _ & _ & _ & Hs1 & Hsp1 & _ & _).
    assert (forall b c, stack_store (move_stackptr (emit st1 [b]) 1) c
                          = Panic IndexOutOfRange) as Hst.
    { intros b c. unfold stack_store. cbn [stackptr stack move_stackptr emit].
      rewrite Hs1, Hsp1, Hsp, Hl. reflexivity. }
    destruct Hk as [-> | ->]; rewrite Hst; reflexivity.
  - apply element_key_Panic in Hkey as ->.
    destruct Hk as [-> | ->]; reflexivity.
Qed.

End Elements.

(** ** What the loop does at a tag, from any state of a call *)

Section Loop.

Variable FormatFloat : N -> list byte.
Variable FormatRFC3339Nano : Z -> list byte.

Local Abbreviation dispatch := (dispatch FormatFloat FormatRFC3339Nano).
Local Abbreviation iteration := (iteration FormatFloat FormatRFC3339Nano).
Local Abbreviation ToJson := (ToJson FormatFloat FormatRFC3339Nano).
Local Abbreviation reachable := (reachable FormatFloat FormatRFC3339Nano).

(** C2, as the code has it: when the loop comes to a tag byte that no
    [case] names, the call returns the output written so far as its
    result; nothing tells the caller that the document was cut short. *)
Theorem unrecognized_tag_returns_output_so_far bs st tag :
  reachable bs st -> idx st < len bs ->
  elems bs !! idx st = Some tag -> recognized tag = false ->
  ToJson bs = Some (Returned (jsonbytes st)).
Proof.
  intros Hr Hlt Htag Hrec.
  rewrite (reachable_run _ _ _ _ Hr), (run_iteration _ _ _ _ Hlt).
  unfold iteration, dispatch. apply index_Ok in Htag. rewrite Htag.
  destruct tag; try discriminate Hrec; reflexivity.
Qed.

(** C3, as the code has it: when the loop comes to the tag of a legacy
    date-time or of a Decimal128 element, the call panics with the output
    written so far as the panic value; nothing after the tag byte is read,
    and nothing is returned to the caller. *)
Theorem unsupported_kind_panics bs st tag :
  reachable bs st -> idx st < len bs ->
  elems bs !! idx st = Some tag -> tag = Time \/ tag = Dec128 ->
  ToJson bs = Some (Panicked (PanicValue (jsonbytes st))).
Proof.
  intros Hr Hlt Htag Hk.
  rewrite (reachable_run _ _ _ _ Hr), (run_iteration _ _ _ _ Hlt).
  unfold iteration, dispatch. apply index_Ok in Htag. rewrite Htag.
  destruct Hk as [-> | ->]; reflexivity.
Qed.

(** C7: once the [switch] has written a value or a delimiter, the loop
    body appends a comma exactly when input remains, the next input byte
    is not the terminal byte, and the last output character is neither an
    opening brace nor an opening bracket; otherwise it appends nothing. *)
Theorem comma_rule bs st st1 :
  reachable bs st -> idx st < len bs -> dispatch bs st = Continue st1 ->
  let follows :=
    idx st1 < len bs /\ elems bs !! idx st1 <> Some Terminal /\
    last (jsonbytes st1) <> Some LBRACE /\
    last (jsonbytes st1) <> Some LBRACKET in
  (follows -> iteration bs st = Continue (emit st1 [COMMA])) /\
  (~ follows -> iteration bs st = Continue st1).
Proof.
  intros Hr Hlt Hd follows. subst follows.
  apply reachable_invariant in Hr as (_ & _ & Hne).
  apply dispatch_Continue in Hd as Hc.
  destruct Hc as (_ & _ & _ & _ & _ & text & Hj).
  assert (exists l, last (jsonbytes st1) = Some l) as [l Hl].
  { destruct (last (jsonbytes st1)) as [l|] eqn:El; [eauto|].
    apply last_None in El. rewrite Hj in El.
    apply app_eq_nil in El as [? _]. contradiction. }
  unfold iteration. rewrite Hd. unfold add_comma, last_byte, index.
  rewrite Hl. simpl.
  destruct (idx st1 <? len bs) eqn:E1.
  - apply Nat.ltb_lt in E1.
    destruct (elems bs !! idx st1) as [next|] eqn:En.
    2:{ apply lookup_ge_None in En. unfold len in E1. lia. }
    simpl.
    destruct (Byte.eqb next x00) eqn:E2; simpl.
    + apply Byte.byte_dec_bl in E2. subst next. split; [|reflexivity].
      intros (_ & H & _). congruence.
    + apply Byte.eqb_false in E2.
      destruct (Byte.eqb l x7b) eqn:E3; simpl.
      * apply Byte.byte_dec_bl in E3. subst l. split; [|reflexivity].
        intros (_ & _ & H & _). congruence.
      * apply Byte.eqb_false in E3.
        destruct (Byte.eqb l x5b) eqn:E4; simpl.
        -- apply Byte.byte_dec_bl in E4. subst l. split; [|reflexivity].
           intros (_ & _ & _ & H). congruence.
        -- apply Byte.eqb_false in E4. split; [reflexivity|].
           intros H. exfalso. apply H. repeat split; congruence.
  - apply Nat.ltb_ge in E1. split; [|reflexivity]. intros (H & _). lia.
Qed.

End Loop.

Section ArrayNames.

Variable FormatFloat : N -> list byte.
Variable FormatRFC3339Nano : Z -> list byte.

Local Abbreviation dispatch := (dispatch FormatFloat FormatRFC3339Nano).
Local Abbreviation iteration := (iteration FormatFloat FormatRFC3339Nano).




End ArrayNames.

(** ** Evaluating the transcoder on documents *)

Section Documents.

Variable FormatFloat : N -> list byte.
Variable FormatRFC3339Nano : Z -> list byte.
Variable spare : list byte.

Local Abbreviation ToJson := (ToJson FormatFloat FormatRFC3339Nano).

(** C8: decoding the empty document, a length prefix followed at once by
    the terminal byte, yields the two characters of an empty object. *)
Theorem empty_document_yields_braces :
  empty_document = [x05; x00; x00; x00; x00] /\
  ToJson (Slice empty_document spare) = Some (Returned [LBRACE; RBRACE]).
Proof. split; reflexivity. Qed.

(** C10: on the zero-length input the call returns its input, a
    zero-length output, and does not panic; no brace is written. *)
Theorem zero_length_input_returned :
  ToJson (Slice [] spare) = Some (Returned []).
Proof. reflexivity. Qed.

(** C1, at the documents [{"a": int32(-1)}] and [{"a": int64(-1)}]: the
    payload is formatted with [FormatUint], so the output holds the
    magnitudes 4294967295 and 18446744073709551615 where the signed
    reading of the payloads is -1. *)
Theorem negative_integers_rendered_unsigned :
  let p32 := [xff; xff; xff; xff] in
  let p64 := p32 ++ p32 in
  ToJson (Slice (document1 Int32 [x61] p32) spare)
    = Some (Returned ([LBRACE; QUOTE; x61; QUOTE; COLON]
                        ++ bytes_of "4294967295" ++ [RBRACE])) /\
  ToJson (Slice (document1 Int64 [x61] p64) spare)
    = Some (Returned ([LBRACE; QUOTE; x61; QUOTE; COLON]
                        ++ bytes_of "18446744073709551615" ++ [RBRACE])) /\
  FormatInt (to_signed 32 (le_uint p32)) = bytes_of "-1" /\
  FormatInt (to_signed 64 (le_uint p64)) = bytes_of "-1".
Proof. repeat split; vm_compute; reflexivity. Qed.

End Documents.

(** ** The store wrapper *)

(** C9: when the single result of the driver holds an error, [FindOne]
    returns a nil error if that error is the driver's "no documents"
    error, and returns every other error, with a stack attached, as its
    error. *)
Theorem FindOne_no_documents_is_no_error
    (Filter : Type) (driver_FindOne : Filter -> Store.SingleResult)
    (filter : Filter) (e : Store.error) :
  Store.Err (driver_FindOne filter) = Some e ->
  (e = Store.ErrNoDocuments ->
   snd (Store.FindOne Filter driver_FindOne filter) = None) /\
  (e <> Store.ErrNoDocuments ->
   snd (Store.FindOne Filter driver_FindOne filter)
     = Some (Store.WithStack e)) /\
  fst (Store.FindOne Filter driver_FindOne filter)
    = Store.Decoder (driver_FindOne filter).
Proof.
  intros He. unfold Store.FindOne. rewrite He.
  destruct e; repeat split; intros; congruence.
Qed.

Lemma FindOne_no_documents_is_no_error_witness :
  snd (Store.FindOne unit
         (fun _ => Store.Build_SingleResult (Some Store.ErrNoDocuments) [])
         tt) = None /\
  snd (Store.FindOne unit
         (fun _ => Store.Build_SingleResult
                     (Some (Store.DriverError "connection closed")) [])
         tt) = Some (Store.WithStack (Store.DriverError "connection closed")).
Proof.
  split.
  - apply (FindOne_no_documents_is_no_error unit
             (fun _ => Store.Build_SingleResult (Some Store.ErrNoDocuments) [])
             tt Store.ErrNoDocuments); reflexivity.
  - apply (FindOne_no_documents_is_no_error unit
             (fun _ => Store.Build_SingleResult
                         (Some (Store.DriverError "connection closed")) [])
             tt (Store.DriverError "connection closed"));
      [reflexivity | discriminate].
Defined.

(** ** The theorems at documents *)

(** C2 at [{"a": true, "b": <binary data>}]: the call returns the text up
    to the element it does not know, as a result like any other. *)
Lemma unrecognized_tag_truncates :
  ToJson_any (Slice boolean_binary_document [])
    = Some (Returned ([LBRACE; QUOTE; x61; QUOTE; COLON]
                        ++ bytes_of "true" ++ [COMMA])).
Proof. vm_compute. reflexivity. Qed.

Lemma unrecognized_tag_returns_output_so_far_witness :
  ToJson_any (Slice binary_document []) = Some (Returned [LBRACE]).
Proof.
  apply (unrecognized_tag_returns_output_so_far FormatFloat_any FormatTime_any
           (Slice binary_document []) initial x05).
  - apply reach_initial. discriminate.
  - unfold len. simpl. lia.
  - reflexivity.
  - reflexivity.
Defined.

(** C3 at [{"a": <Decimal128>}]: the call panics; it does not return. *)
Lemma decimal128_document_aborts :
  aborts (ToJson_any (Slice decimal128_document [])) /\
  ~ returns (ToJson_any (Slice decimal128_document [])).
Proof.
  split.
  - exists (PanicValue [LBRACE]). vm_compute. reflexivity.
  - intros [out H]. vm_compute in H. discriminate.
Qed.

Lemma unsupported_kind_panics_witness :
  ToJson_any (Slice timestamp_document [])
    = Some (Panicked (PanicValue [LBRACE])).
Proof.
  apply (unsupported_kind_panics FormatFloat_any FormatTime_any
           (Slice timestamp_document []) initial Time).
  - apply reach_initial. discriminate.
  - unfold len. simpl. lia.
  - reflexivity.
  - left. reflexivity.
Defined.

(** C4 at the document 65 containers deep: the call panics on the index
    into the stack; it does not return a bounds error. One level less
    decodes. *)
Lemma nesting_65_deep_aborts :
  aborts (ToJson_any (Slice (nested_document 64) []))
  /\ ~ returns (ToJson_any (Slice (nested_document 64) []))
  /\ returns (ToJson_any (Slice (nested_document 63) [])).
Proof.
  split; [|split].
  - exists IndexOutOfRange. vm_compute. reflexivity.
  - intros [out H]. vm_compute in H. discriminate.
  - eexists. vm_compute. reflexivity.
Qed.

Lemma nesting_stack_bounded_witness :
  ToJson_any (Slice (nested_document 64) []) = Some (Panicked IndexOutOfRange).
Proof.
  destruct (states_after FormatFloat_any FormatTime_any 63
              (Slice (nested_document 64) []) initial) as [st|] eqn:E;
    [|vm_compute in E; discriminate].
  assert (reachable FormatFloat_any FormatTime_any
            (Slice (nested_document 64) []) st) as Hr.
  { apply (states_after_reachable _ _ 63 _ initial);
      [apply reach_initial; discriminate | exact E]. }
  vm_compute in E. injection E as <-.
  apply (proj2 (proj2 (nesting_stack_bounded _ _ _ _ Hr)) Object).
  - vm_compute. lia.
  - vm_compute. reflexivity.
  - left. reflexivity.
  - reflexivity.
Defined.

(** C5 at [{"s": <quote, backslash, newline, tab, carriage return>}]. *)
Lemma string_element_round_trip_witness :
  dispatch FormatFloat_any FormatTime_any (Slice string_document []) initial
    = Continue (State 17
                  ([LBRACE; QUOTE; x73; QUOTE; COLON]
                     ++ QUOTE :: [x5c; x22; x5c; x5c; x5c; x6e;
                                  x5c; x74; x5c; x72] ++ [QUOTE])
                  (stack initial) 0) /\
  json_string (QUOTE :: [x5c; x22; x5c; x5c; x5c; x6e; x5c; x74; x5c; x72]
                 ++ [QUOTE; RBRACE])
    = Some (string_payload, [RBRACE]).
Proof.
  pose proof (string_element_round_trip FormatFloat_any FormatTime_any
                (Slice string_document []) initial
                (State 7 [LBRACE; QUOTE; x73; QUOTE; COLON] (stack initial) 0)
                (le32 6)) as H.
  destruct H as (Hd & Hr & _).
  - reflexivity.
  - reflexivity.
  - reflexivity.
  - vm_compute. lia.
  - split; [exact Hd | exact (Hr eq_refl eq_refl [RBRACE])].
Defined.

(** C5 at [{"s": <a backspace>}], a payload of well-formed UTF-8: the call
    returns the backspace as it is between the quotes, and the quoted text
    is no JSON string; reading it back gives nothing, not the payload. *)
Lemma backspace_not_read_back :
  ToJson_any (Slice backspace_document [])
    = Some (Returned ([LBRACE; QUOTE; x73; QUOTE; COLON]
                        ++ [QUOTE; x08; QUOTE] ++ [RBRACE])) /\
  utf8_valid [x08] = true /\
  json_string ([QUOTE; x08; QUOTE] ++ [RBRACE]) = None.
Proof. vm_compute. repeat split. Qed.


(** The same iteration, evaluated: the seven is written, the name is not. *)
Example array_element_written :
  iteration FormatFloat_any FormatTime_any (Slice array_document [])
      array_state
    = Continue (State 18 [LBRACE; QUOTE; x61; QUOTE; COLON; LBRACKET; x37]
                  (stack array_state) 1).
Proof. reflexivity. Qed.

(** C7 at [{"a": true, "b": null}], after the first value. *)
Lemma comma_rule_witness :
  iteration FormatFloat_any FormatTime_any (Slice boolean_null_document [])
      initial
    = Continue (State 8
                  ([LBRACE; QUOTE; x61; QUOTE; COLON] ++ bytes_of "true"
                     ++ [COMMA])
                  (stack initial) 0).
Proof.
  pose proof (comma_rule FormatFloat_any FormatTime_any
                (Slice boolean_null_document []) initial
                (State 8 ([LBRACE; QUOTE; x61; QUOTE; COLON]
                            ++ bytes_of "true") (stack initial) 0)) as H.
  destruct H as [H _].
  - apply reach_initial. discriminate.
  - vm_compute. lia.
  - reflexivity.
  - apply H. repeat split; try discriminate. vm_compute. lia.
Defined.

(** * Further properties of the transcoder *)

Section Output.

Variable FormatFloat : N -> list byte.
Variable FormatRFC3339Nano : Z -> list byte.

Local Abbreviation dispatch := (dispatch FormatFloat FormatRFC3339Nano).
Local Abbreviation iteration := (iteration FormatFloat FormatRFC3339Nano).
Local Abbreviation loop := (loop FormatFloat FormatRFC3339Nano).
Local Abbreviation run := (run FormatFloat FormatRFC3339Nano).
Local Abbreviation ToJson := (ToJson FormatFloat FormatRFC3339Nano).
Local Abbreviation reachable := (reachable FormatFloat FormatRFC3339Nano).

Lemma iteration_Return bs st out :
  iteration bs st = Return out -> out = jsonbytes st.
Proof.
  unfold iteration.
  destruct (dispatch bs st) as [st1|out1|p] eqn:Hd.
  - destruct (add_comma bs st1); discriminate.
  - intros [= <-]. unfold dispatch in Hd.
    destruct (index bs (idx st)) as [tag|]; [|discriminate].
    destruct tag; try discriminate Hd;
      try (injection Hd as <-; reflexivity);
      match type of Hd with flow_of ?r = _ => destruct r; discriminate end.
  - discriminate.
Qed.

(** Every state after [st] in the loop has the output of [st] as a prefix
    of its own, and so has what the loop returns. *)
Lemma loop_Returned_extends fuel bs st out :
  loop fuel bs st = Some (Returned out) ->
  exists tail, out = jsonbytes st ++ tail.
Proof.
  revert st. induction fuel as [|fuel IH]; intros st; simpl.
  - destruct (idx st <? len bs); [discriminate|].
    intros [= <-]. exists []. now rewrite app_nil_r.
  - destruct (idx st <? len bs).
    2:{ intros [= <-]. exists []. now rewrite app_nil_r. }
    destruct (iteration bs st) as [st'|out'|p] eqn:Hit.
    + intros H. apply IH in H as [tail ->].
      apply iteration_Continue in Hit as (_ & _ & _ & _ & _ & text & ->).
      exists (text ++ tail). now rewrite app_assoc.
    + intros [= <-]. apply iteration_Return in Hit as ->.
      exists []. now rewrite app_nil_r.
    + discriminate.
Qed.

(** X1: the output is only appended to. What a call returns begins with
    what had been written in any state the call passed through; it begins
    with the opening brace written before the loop, whatever the input. *)
Theorem returned_output_extends bs st out :
  reachable bs st -> ToJson bs = Some (Returned out) ->
  (exists tail, out = jsonbytes st ++ tail) /\
  (exists tail, out = LBRACE :: tail).
Proof.
  intros Hr Hout.
  assert (len bs <> 0) as Hn.
  { clear Hout. induction Hr; [assumption | exact IHHr]. }
  split.
  - rewrite (reachable_run _ _ _ _ Hr) in Hout.
    now apply loop_Returned_extends in Hout.
  - rewrite (ToJson_run _ _ _ Hn) in Hout.
    apply loop_Returned_extends in Hout as [tail ->]. now exists tail.
Qed.

(** ** The stack *)

Ltac zleb :=
  repeat match goal with
         | H : (_ <=? _)%Z = true |- _ => apply Z.leb_le in H
         | H : (_ <=? _)%Z = false |- _ => apply Z.leb_gt in H
         end;
  lia.

(** What an iteration that goes on does to the stack: nothing at a
    scalar, a push of a closing delimiter at a container, a pop at a
    terminal byte. *)
Lemma dispatch_stack bs st st' :
  dispatch bs st = Continue st' ->
  (stack st' = stack st /\ stackptr st' = stackptr st) \/
  (exists c, (c = RBRACE \/ c = RBRACKET) /\
     stackptr st' = (stackptr st + 1)%Z /\
     stack st' = <[Z.to_nat (stackptr st + 1) := c]> (stack st)) \/
  (exists top, stack st !! Z.to_nat (stackptr st) = Some top /\
     stackptr st' = (stackptr st - 1)%Z /\
     stack st' = <[Z.to_nat (stackptr st) := Terminal]> (stack st) /\
     jsonbytes st' = jsonbytes st ++ [top] /\ idx st' = idx st + 1).
Proof.
  unfold dispatch. destruct (index bs (idx st)) as [tag|] eqn:Hi; [|discriminate].
  intros H.
  destruct tag; try discriminate H;
    apply flow_of_Continue in H; inv_bind H;
    try (apply element_key_Ok in E
           as (end_ & key & Hs & Hi1 & Hj & Hst & Hsp & Hp0 & Hpl)).
  all: try (injection H as <-; left; simpl; split; congruence).
  - (* Terminal *)
    right. right. unfold stack_top in E. simpl in E.
    destruct (0 <=? stackptr st)%Z; [|discriminate].
    destruct (stack st !! Z.to_nat (stackptr st)) as [top|] eqn:Ht;
      [|discriminate].
    injection E as <-. apply stack_store_Ok in E0 as (_ & _ & ->).
    injection H as <-. exists top. simpl. repeat split; auto; lia.
  - (* Object *)
    apply stack_store_Ok in E0 as (_ & _ & ->). injection H as <-.
    right. left. exists x7d. simpl. rewrite Hst, Hsp. auto.
  - (* Array *)
    apply stack_store_Ok in E0 as (_ & _ & ->). injection H as <-.
    right. left. exists x5d. simpl. rewrite Hst, Hsp. auto.
Qed.

Lemma add_comma_same bs st st' :
  add_comma bs st = Ok st' ->
  stack st' = stack st /\ stackptr st' = stackptr st /\ idx st' = idx st /\
  (jsonbytes st' = jsonbytes st \/ jsonbytes st' = jsonbytes st ++ [COMMA]).
Proof.
  intros H. apply add_comma_Ok in H as [-> | ->]; simpl; auto.
Qed.

Lemma reachable_stack_shape bs st : reachable bs st -> stack_shape st.
Proof.
  induction 1 as [Hn | st st' Hr IH Hlt Hit].
  - intros i b. unfold initial. cbn [stack stackptr].
    destruct i as [|i].
    + rewrite list_lookup_insert_eq by (rewrite length_replicate; lia).
      intros [= <-]. simpl. auto.
    + rewrite list_lookup_insert_ne by discriminate.
      intros Hb. apply lookup_replicate in Hb as [-> _].
      destruct (Z.of_nat (S i) <=? 0)%Z eqn:E; [zleb | reflexivity].
  - pose proof (reachable_invariant _ _ _ _ Hr) as (Hl & Hp & _).
    unfold iteration in Hit.
    destruct (dispatch bs st) as [st1| |] eqn:Hd; try discriminate.
    apply flow_of_Continue, add_comma_same in Hit as (Hs & Hsp & _ & _).
    apply dispatch_Continue in Hd as Hc. destruct Hc as (_ & _ & Hp0 & _).
    apply dispatch_stack in Hd
      as [[Hs1 Hsp1] | [(c & Hc & Hsp1 & Hs1) | (top & _ & Hsp1 & Hs1 & _)]];
      intros i b; rewrite Hs, Hsp, Hs1, Hsp1; clear Hs Hsp Hs1 Hsp1.
    + apply IH.
    + destruct (Nat.eq_dec i (Z.to_nat (stackptr st + 1))) as [-> | Hne].
      * intros Hb. apply lookup_lt_Some in Hb as Hlt'.
        rewrite length_insert in Hlt'.
        rewrite list_lookup_insert_eq in Hb by exact Hlt'.
        injection Hb as <-.
        destruct (_ <=? _)%Z eqn:E; [exact Hc | zleb].
      * rewrite list_lookup_insert_ne by congruence. intros Hb.
        specialize (IH i b Hb).
        destruct (Z.of_nat i <=? stackptr st)%Z eqn:E1;
          destruct (Z.of_nat i <=? stackptr st + 1)%Z eqn:E2; auto; zleb.
    + destruct (Nat.eq_dec i (Z.to_nat (stackptr st))) as [-> | Hne].
      * intros Hb. apply lookup_lt_Some in Hb as Hlt'.
        rewrite length_insert in Hlt'.
        rewrite list_lookup_insert_eq in Hb by exact Hlt'.
        injection Hb as <-.
        destruct (_ <=? _)%Z eqn:E; [zleb | reflexivity].
      * rewrite list_lookup_insert_ne by congruence. intros Hb.
        specialize (IH i b Hb).
        destruct (Z.of_nat i <=? stackptr st)%Z eqn:E1;
          destruct (Z.of_nat i <=? stackptr st - 1)%Z eqn:E2; auto; zleb.
Qed.

(** X2: whenever the loop meets a terminal byte while a container is
    open, the iteration goes on: it steps over the byte, pops one frame
    and writes that frame's delimiter, which is a closing brace or a
    closing bracket, followed at most by a comma. *)
Theorem terminal_closes_container bs st :
  reachable bs st -> idx st < len bs ->
  elems bs !! idx st = Some Terminal -> (0 <= stackptr st)%Z ->
  exists c st',
    stack st !! Z.to_nat (stackptr st) = Some c /\
    (c = RBRACE \/ c = RBRACKET) /\
    iteration bs st = Continue st' /\
    idx st' = idx st + 1 /\ stackptr st' = (stackptr st - 1)%Z /\
    (jsonbytes st' = jsonbytes st ++ [c] \/
     jsonbytes st' = jsonbytes st ++ [c; COMMA]).
Proof.
  intros Hr Hlt Htag Hp0.
  pose proof (reachable_invariant _ _ _ _ Hr) as (Hl & Hp & Hj).
  pose proof (reachable_stack_shape _ _ Hr) as Hshape.
  destruct (stack st !! Z.to_nat (stackptr st)) as [c|] eqn:Hc.
  2:{ apply lookup_ge_None in Hc. lia. }
  specialize (Hshape _ _ Hc). rewrite Z2Nat.id in Hshape by exact Hp0.
  rewrite Z.leb_refl in Hshape.
  assert (dispatch bs st
          = Continue (State (idx st + 1) (jsonbytes st ++ [c])
                        (<[Z.to_nat (stackptr st) := Terminal]> (stack st))
                        (stackptr st + -1))) as Hd.
  { unfold dispatch. apply index_Ok in Htag. rewrite Htag.
    unfold stack_top, stack_store. simpl.
    apply Z.leb_le in Hp0 as Hp0'. rewrite Hp0', Hc. simpl.
    assert ((Z.to_nat (stackptr st) <? length (stack st)) = true) as ->
      by (apply Nat.ltb_lt; lia).
    reflexivity. }
  unfold iteration. rewrite Hd.
  destruct (add_comma bs _) as [st'|p] eqn:Hcomma.
  - exists c, st'. apply add_comma_same in Hcomma as (_ & Hsp & Hi & Hout).
    simpl in *. repeat split; auto; try lia.
    destruct Hout as [-> | ->]; [left | right]; [reflexivity|].
    now rewrite <- app_assoc.
  - exfalso. revert Hcomma. unfold add_comma, last_byte, index. simpl.
    rewrite last_snoc.
    destruct (idx st + 1 <? len bs) eqn:E; [|discriminate].
    apply Nat.ltb_lt in E.
    destruct (elems bs !! (idx st + 1)) as [next|] eqn:En.
    2:{ apply lookup_ge_None in En. unfold len in E. lia. }
    simpl. destruct (negb (Byte.eqb next x00)); [|discriminate].
    destruct (negb (Byte.eqb c x7b)); [|discriminate].
    destruct (negb (Byte.eqb c x5b)); discriminate.
Qed.

(** ** Input that ends early or goes on too long *)

(** X3: an input of one to four bytes has no room for an element after
    the length prefix; the loop is not entered and the call returns the
    opening brace alone. *)
Theorem short_input_returns_brace bs :
  0 < len bs <= 4 -> ToJson bs = Some (Returned [LBRACE]).
Proof.
  intros [H0 H4]. rewrite ToJson_run by lia. apply run_end. simpl. lia.
Qed.

(** X4: bytes after the end of the top-level document. Once the frame of
    the top-level document is popped, a further byte that is a terminal
    byte or the tag of an element makes the call panic on the index into
    the stack, whatever follows. *)
Theorem input_after_document_panics bs st tag :
  reachable bs st -> idx st < len bs -> stackptr st = (-1)%Z ->
  elems bs !! idx st = Some tag ->
  tag = Terminal \/ is_element tag = true ->
  ToJson bs = Some (Panicked IndexOutOfRange).
Proof.
  intros Hr Hlt Hsp Htag Hk.
  rewrite (reachable_run _ _ _ _ Hr), (run_iteration _ _ _ _ Hlt).
  unfold iteration, dispatch. apply index_Ok in Htag. rewrite Htag.
  assert (element_key bs st = Panic IndexOutOfRange) as Hkey.
  { destruct (element_key bs st) as [st1|p] eqn:Hkey.
    - apply element_key_Ok in Hkey as (e & k & _ & _ & _ & _ & _ & H0 & _).
      lia.
    - now apply element_key_Panic in Hkey as ->. }
  destruct Hk as [-> | Hel].
  - unfold stack_top. simpl. rewrite Hsp. reflexivity.
  - destruct tag; try discriminate Hel; rewrite Hkey; reflexivity.
Qed.

(** X5: a field name that is not terminated. At the tag of an element
    with no zero byte in the rest of the input, the scan for the end of
    the name runs off the input and the call panics. *)
Theorem unterminated_name_panics bs st tag :
  reachable bs st -> idx st < len bs ->
  elems bs !! idx st = Some tag -> is_element tag = true ->
  Forall (fun b => b <> Terminal) (drop (S (idx st)) (elems bs)) ->
  ToJson bs = Some (Panicked IndexOutOfRange).
Proof.
  intros Hr Hlt Htag Hel Hnz.
  rewrite (reachable_run _ _ _ _ Hr), (run_iteration _ _ _ _ Hlt).
  unfold iteration, dispatch. apply index_Ok in Htag. rewrite Htag.
  assert (element_key bs st = Panic IndexOutOfRange) as Hkey.
  { unfold element_key, scan_name.
    assert (forall l from, Forall (fun b => b <> x00) l ->
              find_terminal l from = Panic IndexOutOfRange) as Hft.
    { intros l from Hl. revert from.
      induction Hl as [|b l Hb _ IH]; intros from; simpl; [reflexivity|].
      destruct (Byte.eqb b x00) eqn:E; [|apply IH].
      apply Byte.byte_dec_bl in E. contradiction. }
    now rewrite Hft. }
  destruct tag; try discriminate Hel; rewrite Hkey; reflexivity.
Qed.

(** X6: a payload that is cut short. When the bytes a case slices from
    the input (the 4, 8 or 12 bytes of a fixed-width payload, or the
    length prefix of a string) end beyond the capacity of the input, the
    call panics on the slice bounds. *)
Theorem truncated_payload_panics bs st st1 tag width :
  reachable bs st -> idx st < len bs ->
  elems bs !! idx st = Some tag -> sliced_width tag = Some width ->
  element_key bs st = Ok st1 -> cap bs < idx st1 + width ->
  ToJson bs = Some (Panicked SliceBoundsOutOfRange).
Proof.
  intros Hr Hlt Htag Hw Hkey Hcap.
  rewrite (reachable_run _ _ _ _ Hr), (run_iteration _ _ _ _ Hlt).
  unfold iteration, dispatch. apply index_Ok in Htag. rewrite Htag.
  assert (subslice bs (idx st1) (idx st1 + width)
          = Panic SliceBoundsOutOfRange) as Hsub.
  { unfold subslice.
    assert ((idx st1 + width <=? cap bs) = false) as ->
      by (apply Nat.leb_gt; exact Hcap).
    now rewrite andb_false_r. }
  destruct tag; try discriminate Hw; injection Hw as <-;
    rewrite Hkey; cbn [bind]; rewrite Hsub; reflexivity.
Qed.

(** ** Identifiers *)

Lemma subslice_within bs lo hi :
  lo <= hi -> hi <= len bs ->
  subslice bs lo hi = Ok (take (hi - lo) (drop lo (elems bs))).
Proof.
  intros Hlo Hhi. unfold subslice, cap. fold (len bs).
  assert ((lo <=? hi) && (hi <=? len bs + length (backing bs)) = true) as ->.
  { apply andb_true_iff. split; apply Nat.leb_le; lia. }
  f_equal. rewrite drop_app_le by (unfold len in Hhi; lia).
  rewrite take_app_le; [reflexivity|]. rewrite length_drop.
  unfold len in Hhi. lia.
Qed.

Lemma hex_byte b :
  lower_hex (hexdigit (Byte.to_N b / 16)) = true /\
  lower_hex (hexdigit (Byte.to_N b mod 16)) = true /\
  hexval (hexdigit (Byte.to_N b / 16)) = Some (Byte.to_N b / 16)%N /\
  hexval (hexdigit (Byte.to_N b mod 16)) = Some (Byte.to_N b mod 16)%N /\
  byte_of_N (Byte.to_N b / 16 * 16 + Byte.to_N b mod 16) = b.
Proof. destruct b; vm_compute; repeat split. Qed.

Lemma EncodeToString_spec l :
  length (EncodeToString l) = 2 * length l /\
  Forall (fun c => lower_hex c = true) (EncodeToString l) /\
  DecodeString (EncodeToString l) = Some l.
Proof.
  induction l as [|b l (IH1 & IH2 & IH3)]; [repeat split; constructor|].
  destruct (hex_byte b) as (H1 & H2 & H3 & H4 & H5).
  cbn [EncodeToString DecodeString length]. repeat split.
  - rewrite IH1. lia.
  - repeat constructor; assumption.
  - rewrite H3, H4, IH3, H5. reflexivity.
Qed.

(** X7: at a 12-byte identifier that lies within the input, the switch
    writes, between double quotes, 24 characters that are digits or
    letters from a to f, and decoding them as hexadecimal gives the 12
    bytes of the payload; the cursor moves past the payload. *)
Theorem object_id_element_hex bs st st1 :
  index bs (idx st) = Ok ObjectId ->
  element_key bs st = Ok st1 ->
  idx st1 + 12 <= len bs ->
  let id := take 12 (drop (idx st1) (elems bs)) in
  let text := EncodeToString id in
  dispatch bs st
    = Continue (State (idx st1 + 12) (jsonbytes st1 ++ QUOTE :: text ++ [QUOTE])
                  (stack st1) (stackptr st1)) /\
  length id = 12 /\ length text = 24 /\
  Forall (fun c => lower_hex c = true) text /\
  DecodeString text = Some id.
Proof.
  intros Hi Hk Hlen id text.
  assert (length id = 12) as Hid.
  { unfold id. rewrite length_take, length_drop. unfold len in Hlen. lia. }
  destruct (EncodeToString_spec id) as (H1 & H2 & H3).
  repeat split; auto.
  - unfold dispatch. rewrite Hi, Hk. cbn [bind].
    rewrite subslice_within by lia.
    replace (idx st1 + 12 - idx st1) with 12 by lia. reflexivity.
  - unfold text. rewrite H1, Hid. reflexivity.
Qed.

End Output.

(** * The transcoder on well-formed documents *)

(** ** Reading the parts of an element *)

Ltac app_norm := repeat (progress (rewrite <- ?app_assoc; cbn [app])).

Lemma byte_of_N_to_N n : Byte.to_N (byte_of_N n) = (n mod 256)%N.
Proof.
  unfold byte_of_N. destruct (Byte.of_N (n mod 256)) as [b|] eqn:E.
  - now apply Byte.to_of_N.
  - apply Byte.of_N_None_iff in E.
    pose proof (N.mod_upper_bound n 256). lia.
Qed.

Lemma le_uint_le32 n : (n < 2 ^ 32)%N -> le_uint (le32 n) = n.
Proof.
  intros Hn. unfold le32. cbn [le_uint]. rewrite !byte_of_N_to_N.
  change (2 ^ 32)%N with 4294967296%N in Hn.
  zify. Z.to_euclidean_division_equations. lia.
Qed.

Lemma length_le32 n : length (le32 n) = 4.
Proof. reflexivity. Qed.

Lemma index_at bs pre b rest :
  elems bs = pre ++ b :: rest -> index bs (length pre) = Ok b.
Proof.
  intros He. apply index_Ok. rewrite He. apply list_lookup_middle. reflexivity.
Qed.

Lemma subslice_at bs a m b lo hi :
  elems bs = a ++ m ++ b -> lo = length a -> hi = length a + length m ->
  subslice bs lo hi = Ok m.
Proof.
  intros He -> ->. rewrite subslice_within.
  - f_equal. rewrite He, drop_app_length.
    replace (length a + length m - length a) with (length m) by lia.
    apply take_app_length.
  - lia.
  - unfold len. rewrite He, !length_app. lia.
Qed.

Lemma stack_top_at st sp c : at_frame st sp c -> stack_top st = Ok c.
Proof.
  intros (Hsp & _ & Hc & _). unfold stack_top. rewrite Hsp.
  assert ((0 <=? Z.of_nat sp)%Z = true) as -> by (apply Z.leb_le; lia).
  now rewrite Nat2Z.id, Hc.
Qed.

(** The common block at an element in the frame [c]. *)
Lemma element_key_at bs pre tag name rest st sp in_document :
  elems bs = pre ++ tag :: name ++ Terminal :: rest ->
  Forall (fun b => b <> Terminal) name ->
  idx st = length pre -> at_frame st sp (closer in_document) ->
  element_key bs st
    = Ok (State (length pre + 2 + length name)
            (jsonbytes st ++ key_text in_document name)
            (stack st) (stackptr st)).
Proof.
  intros He Hn Hi Hf. unfold element_key, scan_name.
  rewrite Hi, (stack_top_at _ _ _ Hf).
  replace (drop (S (length pre)) (elems bs)) with (name ++ x00 :: rest).
  2:{ rewrite He. change (pre ++ tag :: name ++ x00 :: rest)
        with (pre ++ [tag] ++ name ++ x00 :: rest).
      rewrite app_assoc. rewrite drop_app_length'; [reflexivity|].
      rewrite length_app. simpl. lia. }
  rewrite find_terminal_name by exact Hn. cbn [bind].
  destruct in_document; cbn [closer key_text Byte.eqb]; simpl Byte.eqb;
    cbn [bind].
  - rewrite (subslice_at bs (pre ++ [tag]) name (x00 :: rest)).
    + cbn [bind]. unfold with_idx, emit. cbn. f_equal. f_equal. lia.
    + rewrite He, <- app_assoc. reflexivity.
    + rewrite length_app. simpl. lia.
    + rewrite length_app. simpl. lia.
  - unfold with_idx. cbn. rewrite app_nil_r. f_equal. f_equal. lia.
Qed.

(** The comma after a value or a closing delimiter, and none after an
    opening one. *)
Lemma add_comma_at bs a rest i out stk sp :
  elems bs = a ++ rest -> i = length a -> closed_text out ->
  add_comma bs (State i out stk sp)
    = Ok (State i (out ++ separator rest) stk sp).
Proof.
  intros He -> (b & Hl & Hb1 & Hb2). unfold add_comma, last_byte, index.
  cbn [idx jsonbytes]. rewrite Hl. unfold len. rewrite He, length_app.
  destruct rest as [|next rest]; cbn [separator].
  - simpl. rewrite Nat.add_0_r, Nat.ltb_irrefl, app_nil_r. reflexivity.
  - assert ((length a <? length a + length (next :: rest)) = true) as ->
      by (apply Nat.ltb_lt; simpl; lia).
    rewrite list_lookup_middle by reflexivity. cbn [bind].
    destruct (Byte.eqb next x00); cbn [negb bind].
    + now rewrite app_nil_r.
    + destruct (Byte.eqb b x7b) eqn:E1.
      { apply Byte.byte_dec_bl in E1. contradiction. }
      destruct (Byte.eqb b x5b) eqn:E2.
      { apply Byte.byte_dec_bl in E2. contradiction. }
      reflexivity.
Qed.

Lemma add_comma_open bs st b :
  last (jsonbytes st) = Some b -> b = LBRACE \/ b = LBRACKET ->
  add_comma bs st = Ok st.
Proof.
  intros Hl Hb. unfold add_comma, last_byte, index. rewrite Hl.
  destruct (idx st <? len bs) eqn:E; [|reflexivity].
  apply Nat.ltb_lt in E.
  destruct (elems bs !! idx st) as [next|] eqn:En; cbn [bind].
  - destruct (negb (Byte.eqb next x00)); [|reflexivity]. cbn [bind].
    destruct Hb as [-> | ->]; reflexivity.
  - apply lookup_ge_None in En. unfold len in E. lia.
Qed.

Lemma add_comma_opened bs i out b stk sp :
  b = LBRACE \/ b = LBRACKET ->
  add_comma bs (State i (out ++ [b]) stk sp)
    = Ok (State i (out ++ [b]) stk sp).
Proof.
  intros Hb. apply (add_comma_open _ _ b); [apply last_snoc | exact Hb].
Qed.

(** ** The text of a scalar does not end with an opening delimiter *)

Lemma closed_text_app out text : closed_text text -> closed_text (out ++ text).
Proof.
  intros (b & Hl & Hb). exists b. split; [|exact Hb].
  rewrite last_app, Hl. reflexivity.
Qed.

Lemma closed_text_snoc out b :
  b <> LBRACE -> b <> LBRACKET -> closed_text (out ++ [b]).
Proof. intros H1 H2. exists b. now rewrite last_snoc. Qed.

Lemma last_Forall {A} (P : A -> Prop) (l : list A) b :
  Forall P l -> last l = Some b -> P b.
Proof.
  intros Hf Hl. apply last_Some in Hl as [l' ->].
  apply Forall_app in Hf as [_ Hf]. now inversion Hf.
Qed.

Lemma uint_bytes_digit d : Forall digit (uint_bytes d).
Proof.
  induction d; simpl; constructor; auto; repeat split; discriminate.
Qed.

Lemma FormatUint_closed n : closed_text (FormatUint n).
Proof.
  unfold FormatUint.
  destruct (last (uint_bytes (N.to_uint n))) as [b|] eqn:Hl.
  - exists b. split; [exact Hl|].
    apply (last_Forall _ _ _ (uint_bytes_digit _)) in Hl as (_ & H1 & H2).
    now split.
  - apply last_None in Hl. exfalso.
    destruct n as [|p]; [discriminate|]. simpl in Hl.
    pose proof (DecimalPos.Unsigned.to_uint_nonnil p) as Hnn.
    destruct (Pos.to_uint p); [contradiction | discriminate..].
Qed.

Section WellFormed.

Variable FormatFloat : N -> list byte.
Variable FormatRFC3339Nano : Z -> list byte.

(** What [strconv.FormatFloat] gives is a number: it is not empty and
    does not end with an opening delimiter. *)
Hypothesis FormatFloat_closed : forall bits, closed_text (FormatFloat bits).

Local Abbreviation dispatch := (dispatch FormatFloat FormatRFC3339Nano).
Local Abbreviation iteration := (iteration FormatFloat FormatRFC3339Nano).
Local Abbreviation run := (run FormatFloat FormatRFC3339Nano).
Local Abbreviation ToJson := (ToJson FormatFloat FormatRFC3339Nano).
Local Abbreviation render_value :=
  (render_value FormatFloat FormatRFC3339Nano).
Local Abbreviation render_elements :=
  (render_elements FormatFloat FormatRFC3339Nano).
Local Abbreviation render_document :=
  (render_document FormatFloat FormatRFC3339Nano).
Local Abbreviation value_decodes :=
  (value_decodes FormatFloat FormatRFC3339Nano).
Local Abbreviation elements_decode :=
  (elements_decode FormatFloat FormatRFC3339Nano).

Lemma render_scalar_closed v : scalar v -> closed_text (render_value v).
Proof.
  destruct v; cbn [scalar render_value]; intros Hs; try contradiction.
  - apply FormatFloat_closed.
  - apply (closed_text_snoc (x22 :: _)); discriminate.
  - apply (closed_text_snoc (x22 :: _)); discriminate.
  - destruct (Byte.eqb b x01); eexists; repeat split; discriminate.
  - apply (closed_text_snoc (x22 :: _)); discriminate.
  - eexists; repeat split; discriminate.
  - apply FormatUint_closed.
  - apply FormatUint_closed.
Qed.

(** The [switch] at a scalar element of a well-formed input. *)
Lemma dispatch_scalar bs pre name v rest st sp in_document :
  elems bs = pre ++ tag_of v :: name ++ Terminal :: encode_payload v ++ rest ->
  Forall (fun b => b <> Terminal) name -> scalar v -> wf_value v ->
  idx st = length pre -> at_frame st sp (closer in_document) ->
  dispatch bs st
    = Continue (State (length pre + 2 + length name + length (encode_payload v))
                  (jsonbytes st ++ key_text in_document name ++ render_value v)
                  (stack st) (stackptr st)).
Proof.
  intros He Hn Hs Hwf Hi Hf.
  pose proof (element_key_at _ _ _ _ _ _ _ _ He Hn Hi Hf) as Hk.
  pose proof (index_at _ _ _ _ He) as Htag. rewrite <- Hi in Htag.
  assert (forall m b, encode_payload v = m ++ b ->
            subslice bs (length pre + 2 + length name)
              (length pre + 2 + length name + length m) = Ok m) as Hsub.
  { intros m b Hp.
    apply (subslice_at bs (pre ++ tag_of v :: name ++ [x00]) m (b ++ rest)).
    - rewrite He, Hp, <- ?app_assoc. cbn. now rewrite <- ?app_assoc.
    - rewrite length_app. cbn. rewrite length_app. cbn. lia.
    - rewrite length_app. cbn. rewrite length_app. cbn. lia. }
  unfold dispatch. rewrite Htag.
  destruct v; cbn [scalar] in Hs; try contradiction;
    cbn [tag_of encode_payload wf_value render_value] in *;
    rewrite Hk; cbn [bind idx jsonbytes stack stackptr with_idx emit flow_of].
  - (* float *)
    rewrite <- Hwf at 1. rewrite (Hsub payload []) by now rewrite app_nil_r.
    cbn [bind flow_of]. unfold with_idx, emit.
    cbn [idx jsonbytes stack stackptr].
    now rewrite Hwf, <- app_assoc.
  - (* string *)
    rewrite <- (length_le32 (N.of_nat (length s + 1))) at 1.
    rewrite (Hsub _ (s ++ [x00])) by reflexivity. cbn [bind].
    rewrite le_uint_le32 by exact Hwf. rewrite Nat2N.id.
    rewrite escape_loop_spec.
    set (i := length pre + 2 + length name + 4).
    replace (i + (length s + 1) - 1 - i) with (length s) by lia.
    assert (take (length s) (drop i (elems bs)) = s) as ->.
    { rewrite He.
      replace (pre ++ x02 :: name ++ x00 :: (le32 (N.of_nat (length s + 1))
                 ++ s ++ [x00]) ++ rest)
        with ((pre ++ x02 :: name ++ x00 :: le32 (N.of_nat (length s + 1)))
                ++ s ++ x00 :: rest).
      2:{ rewrite <- ?app_assoc. cbn. rewrite <- ?app_assoc. reflexivity. }
      rewrite drop_app_length'; [apply take_app_length|].
      unfold i. rewrite length_app. cbn. rewrite length_app. cbn. lia. }
    assert ((length s =? 0) || (i + length s <=? len bs) = true) as ->.
    { apply orb_true_iff. right. apply Nat.leb_le. unfold len, i.
      rewrite He, !length_app. cbn. rewrite !length_app. cbn.
      rewrite !length_app. cbn. lia. }
    cbn [bind flow_of]. unfold with_idx, emit.
    cbn [idx jsonbytes stack stackptr].
    f_equal. f_equal.
    + unfold i. rewrite !length_app. cbn. lia.
    + rewrite <- !app_assoc. reflexivity.
  - (* identifier *)
    replace (length pre + 2 + length name + 12)
      with (length pre + 2 + length name + length payload) by lia.
    rewrite (Hsub payload []) by now rewrite app_nil_r.
    cbn [bind flow_of]. unfold with_idx, emit.
    cbn [idx jsonbytes stack stackptr].
    now rewrite <- app_assoc.
  - (* boolean *)
    assert (index bs (length pre + 2 + length name) = Ok b) as ->.
    { replace (length pre + 2 + length name)
        with (length (pre ++ x08 :: name ++ [x00])).
      2:{ rewrite length_app. cbn. rewrite length_app. cbn. lia. }
      apply (index_at _ _ _ rest). rewrite He, <- ?app_assoc. cbn.
      now rewrite <- ?app_assoc. }
    cbn [bind flow_of]. unfold with_idx, emit.
    cbn [idx jsonbytes stack stackptr].
    now rewrite <- app_assoc.
  - (* timestamp *)
    rewrite <- Hwf at 1. rewrite (Hsub payload []) by now rewrite app_nil_r.
    cbn [bind flow_of]. unfold with_idx, emit.
    cbn [idx jsonbytes stack stackptr].
    now rewrite Hwf, <- app_assoc.
  - (* null *)
    cbn [flow_of length]. unfold with_idx, emit.
    cbn [idx jsonbytes stack stackptr].
    rewrite Nat.add_0_r. now rewrite <- app_assoc.
  - (* int32 *)
    rewrite <- Hwf at 1. rewrite (Hsub payload []) by now rewrite app_nil_r.
    cbn [bind flow_of]. unfold with_idx, emit.
    cbn [idx jsonbytes stack stackptr].
    now rewrite Hwf, <- app_assoc.
  - (* int64 *)
    rewrite <- Hwf at 1. rewrite (Hsub payload []) by now rewrite app_nil_r.
    cbn [bind flow_of]. unfold with_idx, emit.
    cbn [idx jsonbytes stack stackptr].
    now rewrite Hwf, <- app_assoc.
Qed.

Lemma run_state_eq bs i1 i2 o1 o2 stk sp :
  i1 = i2 -> o1 = o2 ->
  run bs (State i1 o1 stk sp) = run bs (State i2 o2 stk sp).
Proof. now intros -> ->. Qed.

Lemma scalar_decodes v : scalar v -> value_decodes v.
Proof.
  intros Hs bs pre name rest st sp in_document He Hn Hwf Hd Hi Hf.
  assert (idx st < len bs) as Hlt.
  { unfold len. rewrite Hi, He, length_app. simpl. lia. }
  rewrite (run_iteration _ _ _ _ Hlt). unfold iteration.
  rewrite (dispatch_scalar _ _ _ _ _ _ _ _ He Hn Hs Hwf Hi Hf).
  rewrite (add_comma_at bs (pre ++ tag_of v :: name ++ x00 :: encode_payload v)
             rest).
  - cbn [flow_of]. apply run_state_eq; [reflexivity|].
    now rewrite <- !app_assoc.
  - rewrite He, <- ?app_assoc. cbn. now rewrite <- ?app_assoc.
  - rewrite length_app. cbn. rewrite !length_app. cbn. lia.
  - rewrite app_assoc. apply closed_text_app, render_scalar_closed, Hs.
Qed.

Lemma at_frame_push st sp c c' i out :
  at_frame st sp c -> S sp < 64 ->
  at_frame (State i out (<[S sp := c']> (stack st)) (Z.of_nat (S sp)))
    (S sp) c'.
Proof.
  intros (Hsp & Hl & Hc & Habove) Hlt. repeat split; cbn [stack stackptr].
  - now rewrite length_insert.
  - apply list_lookup_insert_eq. lia.
  - intros j Hj1 Hj2. rewrite list_lookup_insert_ne by lia.
    apply Habove; lia.
Qed.

Lemma at_frame_state st sp c i out :
  at_frame st sp c -> at_frame (State i out (stack st) (stackptr st)) sp c.
Proof. intros H. exact H. Qed.

(** A container whose elements decode decodes: the tag opens a frame,
    the elements are decoded inside it, the terminal byte closes it. *)
Lemma container_decodes v prefix es :
  v = VObject prefix es \/ v = VArray prefix es ->
  elements_decode es -> value_decodes v.
Proof.
  intros Hv IH bs pre name rest st sp in_document He Hn Hwf Hd Hi Hf.
  set (inner := match v with VObject _ _ => true | _ => false end).
  assert (tag_of v = (if inner then Object else Array) /\
          encode_payload v = prefix ++ encode_elements es ++ [x00] /\
          render_value v
            = (if inner then x7b else x5b)
                :: render_elements inner es ++ [closer inner] /\
          (length prefix = 4 /\ wf_elements es) /\
          depth_value v = S (depth_elements es))
    as (Htag & Hpay & Hren & (Hplen & Hwfe) & Hdep).
  { destruct Hv as [-> | ->]; repeat split; apply Hwf. }
  clearbody inner. rewrite Hdep in Hd. rewrite Hpay, Hren. rewrite Hpay in He.
  rewrite Htag in He. clear Hv Hwf Hdep Hpay Hren Htag.
  pose proof (element_key_at _ _ _ _ _ _ _ _ He Hn Hi Hf) as Hk.
  pose proof (index_at _ _ _ _ He) as Hidx. rewrite <- Hi in Hidx.
  pose proof Hf as (Hsp & Hl & Hc & Habove).
  (* the iteration at the tag *)
  assert (idx st < len bs) as Hlt.
  { unfold len. rewrite Hi, He, length_app. simpl. lia. }
  rewrite (run_iteration _ _ _ _ Hlt).
  set (st1 := State (length pre + 2 + length name + 4)
                (jsonbytes st ++ key_text in_document name
                   ++ [if inner then x7b else x5b])
                (<[S sp := closer inner]> (stack st)) (Z.of_nat (S sp))).
  assert (iteration bs st = Continue st1) as ->.
  { unfold iteration, dispatch. rewrite Hidx.
    assert (forall o c,
              stack_store
                (move_stackptr
                   (emit (State (length pre + 2 + length name)
                            (jsonbytes st ++ key_text in_document name)
                            (stack st) (stackptr st)) [o]) 1) c
              = Ok (State (length pre + 2 + length name)
                      ((jsonbytes st ++ key_text in_document name) ++ [o])
                      (<[S sp := c]> (stack st)) (Z.of_nat (S sp)))) as Hst.
    { intros o c. unfold stack_store, move_stackptr, emit.
      cbn [idx jsonbytes stack stackptr]. rewrite Hsp.
      replace (Z.of_nat sp + 1)%Z with (Z.of_nat (S sp)) by lia.
      rewrite Nat2Z.id.
      assert ((0 <=? Z.of_nat (S sp))%Z = true) as ->
        by (apply Z.leb_le; lia).
      assert ((S sp <? length (stack st)) = true) as ->
        by (apply Nat.ltb_lt; lia).
      reflexivity. }
    destruct inner; rewrite Hk; cbn [bind]; rewrite Hst; cbn [bind flow_of];
      unfold with_idx; cbn [idx jsonbytes stack stackptr];
      rewrite add_comma_opened by auto;
      cbn [flow_of]; unfold st1; rewrite <- app_assoc; reflexivity. }
  (* the elements *)
  assert (elems bs
          = (pre ++ (if inner then x03 else x04) :: name ++ x00 :: prefix)
              ++ encode_elements es ++ x00 :: rest) as He'.
  { rewrite He, <- ?app_assoc. cbn. now rewrite <- ?app_assoc. }
  assert (length (pre ++ (if inner then x03 else x04) :: name ++ x00 :: prefix)
          = length pre + 2 + length name + 4) as Hlen'.
  { rewrite length_app. cbn. rewrite length_app. cbn. lia. }
  rewrite (IH bs _ rest st1 (S sp) inner He' Hwfe);
    [| lia | now rewrite Hlen'
     | apply (at_frame_push st sp (closer in_document)); [exact Hf | lia] ].
  (* the terminal byte *)
  rewrite Hlen'. unfold st1 at 1 2 3. cbn [jsonbytes stack stackptr].
  set (st2 := State _ _ _ _).
  assert (idx st2 < len bs) as Hlt2.
  { unfold len. rewrite He', length_app, Hlen', length_app. cbn. lia. }
  rewrite (run_iteration _ _ _ _ Hlt2).
  assert (index bs (idx st2) = Ok x00) as Hidx2.
  { cbn [idx st2].
    replace (length pre + 2 + length name + 4 + length (encode_elements es))
      with (length ((pre ++ (if inner then x03 else x04)
                       :: name ++ x00 :: prefix) ++ encode_elements es))
      by (rewrite length_app, Hlen'; reflexivity).
    apply (index_at _ _ _ rest). now rewrite <- app_assoc. }
  unfold iteration, dispatch. rewrite Hidx2.
  unfold stack_top, stack_store, move_stackptr, emit, with_idx.
  cbn [idx jsonbytes stack stackptr st2]. rewrite Nat2Z.id.
  assert ((0 <=? Z.of_nat (S sp))%Z = true) as -> by (apply Z.leb_le; lia).
  rewrite list_lookup_insert_eq by lia. cbn [bind andb].
  rewrite length_insert.
  assert ((S sp <? length (stack st)) = true) as ->
    by (apply Nat.ltb_lt; lia).
  cbn [bind flow_of]. rewrite list_insert_insert_eq.
  rewrite (list_insert_id (stack st) (S sp) x00) by (apply Habove; lia).
  cbn [idx jsonbytes stack stackptr].
  replace (Z.of_nat (S sp) + -1)%Z with (Z.of_nat sp) by lia.
  rewrite (add_comma_at bs
             ((pre ++ (if inner then x03 else x04) :: name ++ x00 :: prefix)
                ++ encode_elements es ++ [x00]) rest).
  - cbn [flow_of]. rewrite Hsp. apply run_state_eq.
    + rewrite !length_app. cbn. lia.
    + rewrite <- !app_assoc. cbn. now rewrite <- !app_assoc.
  - rewrite He', <- ?app_assoc. cbn. now rewrite <- ?app_assoc.
  - rewrite length_app, Hlen', length_app. cbn. lia.
  - apply closed_text_snoc; destruct inner; discriminate.
Qed.

Lemma separator_elements r rest :
  separator (encode_elements r ++ Terminal :: rest)
    = match r with
      | ENil => []
      | ECons _ _ _ => [COMMA]
      end.
Proof. destruct r as [|name v r]; [reflexivity|]. now destruct v. Qed.

Lemma nil_decodes : elements_decode ENil.
Proof.
  intros bs pre rest st sp in_document He _ _ Hi _.
  destruct st as [i out stk p]. cbn [idx] in Hi. subst i.
  apply run_state_eq; [cbn; lia | cbn; symmetry; apply app_nil_r].
Qed.

Lemma cons_decodes name v r :
  value_decodes v -> elements_decode r -> elements_decode (ECons name v r).
Proof.
  intros Hv Hr bs pre rest st sp in_document He (Hn & Hwv & Hwr) Hd Hi Hf.
  cbn [encode_elements depth_elements render_elements] in *.
  rewrite (Hv bs pre name (encode_elements r ++ x00 :: rest) st sp in_document);
    [| rewrite He; app_norm; reflexivity
     | assumption | assumption | lia | assumption | assumption].
  rewrite separator_elements.
  rewrite (Hr bs (pre ++ tag_of v :: name ++ x00 :: encode_payload v) rest
             _ sp in_document);
    [| rewrite He; app_norm; reflexivity
     | assumption | lia
     | cbn [idx]; rewrite length_app; cbn; rewrite !length_app; cbn; lia
     | exact Hf].
  cbn [jsonbytes stack stackptr]. apply run_state_eq.
  - rewrite !length_app. cbn. rewrite !length_app. cbn. rewrite !length_app.
    lia.
  - rewrite <- !app_assoc. reflexivity.
Qed.

Lemma all_elements_decode es : elements_decode es.
Proof.
  induction es using elements_value_ind
    with (P := fun v => value_decodes v);
    try (apply scalar_decodes; exact I).
  - apply (container_decodes _ size es); auto.
  - apply (container_decodes _ size es); auto.
  - apply nil_decodes.
  - now apply cons_decodes.
Qed.

(** The call on the encoding of a tree: the loop decodes the elements,
    the terminal byte closes the top-level frame, and the input ends. *)
Lemma document_run prefix es spare :
  length prefix = 4 -> wf_elements es -> depth_elements es <= 63 ->
  ToJson (Slice (encode_document prefix es) spare)
    = Some (Returned (render_document es)).
Proof.
  intros Hplen Hwf Hd. set (bs := Slice (encode_document prefix es) spare).
  assert (elems bs = prefix ++ encode_elements es ++ x00 :: []) as He
    by reflexivity.
  assert (len bs = 4 + length (encode_elements es) + 1) as Hlen.
  { unfold len. rewrite He, !length_app, Hplen. cbn. lia. }
  rewrite ToJson_run by lia.
  assert (at_frame initial 0 (closer true)) as Hf.
  { repeat split. intros i Hi1 Hi2. unfold initial. cbn [stack].
    rewrite list_lookup_insert_ne by lia.
    apply lookup_replicate. split; [reflexivity | lia]. }
  rewrite (all_elements_decode es bs prefix [] initial 0 true He Hwf);
    [| lia | now rewrite Hplen | exact Hf].
  set (st := State _ _ _ _).
  assert (idx st < len bs) as Hlt.
  { unfold st. cbn [idx]. rewrite Hlen, Hplen. lia. }
  rewrite (run_iteration _ _ _ _ Hlt).
  assert (index bs (idx st) = Ok x00) as Hidx.
  { unfold st. cbn [idx].
    replace (length prefix + length (encode_elements es))
      with (length (prefix ++ encode_elements es))
      by now rewrite length_app.
    apply (index_at _ _ _ []). now rewrite <- app_assoc. }
  assert (dispatch bs st
          = Continue (State (idx st + 1) (jsonbytes st ++ [x7d])
                        (<[0 := x00]> (stack initial)) (-1))) as Hdis.
  { unfold dispatch. rewrite Hidx. reflexivity. }
  unfold iteration. rewrite Hdis.
  rewrite (add_comma_at bs (prefix ++ encode_elements es ++ [x00]) []).
  - cbn [flow_of]. rewrite run_end.
    + unfold st, render_document. cbn [jsonbytes initial].
      do 2 f_equal. app_norm. reflexivity.
    + cbn [idx]. unfold st. cbn [idx]. rewrite Hlen, Hplen. lia.
  - rewrite He. app_norm. reflexivity.
  - unfold st. cbn [idx]. rewrite !length_app. cbn [length]. lia.
  - apply closed_text_snoc; discriminate.
Qed.

(** X8: the transcoder on a well-formed document. For every document
    tree whose payloads have the widths of their types, whose names hold
    no zero byte and whose containers nest at most 63 deep below the
    top-level document, the call on the encoding of the tree returns
    the text of the tree: members in input order and separated by commas,
    names written in documents and left out in arrays, every container
    closed by its own delimiter. The four bytes of the length field of
    the document and of every container may hold anything: they are
    stepped over and have no part in the text. *)
Theorem well_formed_document_decodes prefix es spare :
  length prefix = 4 -> wf_elements es -> depth_elements es <= 63 ->
  ToJson (Slice (encode_document prefix es) spare)
    = Some (Returned (render_document es)).
Proof. apply document_run. Qed.

End WellFormed.

(** * Struct tags *)

Module TagsFacts.

Import Tags.
Local Open Scope string_scope.

(** ** Splitting at commas *)

Lemma Split_nonempty sep s : Split sep s <> [].
Proof.
  destruct s as [|c s]; simpl; [discriminate|].
  destruct (Ascii.eqb c sep); [discriminate|].
  destruct (Split sep s); discriminate.
Qed.

Lemma Split_free sep s : contains sep s = false -> Split sep s = [s].
Proof.
  induction s as [|c s IH]; simpl; [reflexivity|].
  intros H. apply orb_false_iff in H as [Hc Hs].
  rewrite Hc, (IH Hs). reflexivity.
Qed.

Lemma Split_app sep p rest :
  contains sep p = false ->
  Split sep (p ++ String sep rest) = p :: Split sep rest.
Proof.
  induction p as [|c p IH]; simpl.
  - intros _. now rewrite Ascii.eqb_refl.
  - intros H. apply orb_false_iff in H as [Hc Hp].
    rewrite Hc, (IH Hp). reflexivity.
Qed.

(** Splitting what [strings.Join] makes of pieces without a separator
    gives the pieces back. *)
Lemma Split_concat sep p parts :
  Forall (fun s => contains sep s = false) (p :: parts) ->
  Split sep (String.concat (String sep "") (p :: parts)) = p :: parts.
Proof.
  revert p. induction parts as [|q parts IH]; intros p Hf.
  - apply Split_free. now inversion Hf.
  - inversion Hf as [|? ? Hp Hrest]; subst.
    change (String.concat (String sep "") (p :: q :: parts))
      with (p ++ String sep (String.concat (String sep "") (q :: parts))).
    rewrite Split_app by exact Hp. now rewrite IH.
Qed.

(** ** Conversion kinds *)

(** X9: the names of the conversion kinds and [parseConvType] are
    inverse to each other: every kind is parsed from its name, a text
    that parses to a kind other than [invalid] is the name of that kind,
    and every other text, the empty one and names in another case among
    them, parses to [invalid]. *)
Theorem parseConvType_names :
  (forall c, parseConvType (part convTypeNames (index_of_convType c)) = c) /\
  (forall t, parseConvType t <> invalid ->
     part convTypeNames (index_of_convType (parseConvType t)) = t) /\
  (forall t, parseConvType t = invalid <->
     t <> "$oid" /\ t <> "$date" /\ t <> "$json").
Proof.
  split; [|split].
  - intros []; reflexivity.
  - intros t. unfold parseConvType, convTypeNames. cbn [find_name].
    destruct (String.eqb_spec "" t); [intros H; now contradiction H|].
    destruct (String.eqb_spec "$oid" t); [subst; reflexivity|].
    destruct (String.eqb_spec "$date" t); [subst; reflexivity|].
    destruct (String.eqb_spec "$json" t); [subst; reflexivity|].
    intros H. now contradiction H.
  - intros t. unfold parseConvType, convTypeNames. cbn [find_name].
    destruct (String.eqb_spec "" t).
    { subst. split; [intros _; repeat split; discriminate | reflexivity]. }
    destruct (String.eqb_spec "$oid" t).
    { subst. split; [discriminate | intros (H & _); now contradiction H]. }
    destruct (String.eqb_spec "$date" t).
    { subst. split; [discriminate | intros (_ & H & _); now contradiction H]. }
    destruct (String.eqb_spec "$json" t).
    { subst. split; [discriminate | intros (_ & _ & H); now contradiction H]. }
    split; [intros _; repeat split; congruence | reflexivity].
Qed.

(** ** Named layouts *)

Lemma timeFormats_lookup k v :
  timeFormats !! k = Some v -> timeFormats !! v = None /\ v <> "".
Proof.
  intros H. apply elem_of_list_to_map_2 in H.
  repeat (apply elem_of_cons in H as [H | H];
          [injection H as -> ->; split; [reflexivity | discriminate]|]).
  now apply elem_of_nil in H.
Qed.

(** Looking a layout up twice is looking it up once: no layout of the
    table is itself a name of the table. *)
Lemma layout_of_idem fmt : layout_of (layout_of fmt) = layout_of fmt.
Proof.
  unfold layout_of at 2 3. destruct (timeFormats !! fmt) as [v|] eqn:H.
  - apply timeFormats_lookup in H as [H _]. unfold layout_of. now rewrite H.
  - unfold layout_of. now rewrite H.
Qed.

Lemma layout_of_empty fmt : layout_of fmt = "" <-> fmt = "".
Proof.
  unfold layout_of. destruct (timeFormats !! fmt) as [v|] eqn:H.
  - apply timeFormats_lookup in H as Hv. destruct Hv as [_ Hv].
    split; [intros ->; now contradiction Hv | intros ->; discriminate].
  - reflexivity.
Qed.

(** ** Tags *)

Lemma part_lookup (parts : list string) i :
  part parts i = nth i parts "".
Proof.
  unfold part. revert i. induction parts as [|p parts IH]; intros [|i];
    try reflexivity. apply IH.
Qed.

Lemma parseBsonConvTag_concat p parts :
  Forall (fun s => contains ","%char s = false) (p :: parts) ->
  parseBsonConvTag (String.concat "," (p :: parts))
    = {| conv := parseConvType (nth 0 parts "");
         omitempty := negb (String.eqb (nth 1 parts "") "");
         datefmt := if convType_eqb (parseConvType (nth 0 parts "")) date
                    then layout_of (nth 2 parts "")
                    else "" |}.
Proof.
  intros Hf. unfold parseBsonConvTag.
  rewrite (Split_concat ","%char p parts Hf). rewrite !part_lookup.
  cbn [nth length]. unfold layout_of.
  destruct parts as [|c [|o [|f rest]]]; cbn [nth length Nat.ltb Nat.leb];
    try reflexivity;
    destruct (convType_eqb (parseConvType c) date); reflexivity.
Qed.

(** X10: a [bsoncv] tag made of comma-free fields joined by commas parses
    field by field, and a field that is missing counts as an empty one: the
    conversion kind is parsed from the second field, [omitempty] is set
    exactly when the third field is not empty (whatever it says), the
    date layout is taken from the fourth field, and only for the kind
    [date], a named layout standing for its layout and any other text
    for itself. The first field and the fields after the fourth have no
    part in it; a date layout is never set for another kind. *)
Theorem parseBsonConvTag_fields p parts :
  Forall (fun s => contains ","%char s = false) (p :: parts) ->
  let t := parseBsonConvTag (String.concat "," (p :: parts)) in
  conv t = parseConvType (nth 0 parts "") /\
  (omitempty t = true <-> nth 1 parts "" <> "") /\
  (conv t = date -> datefmt t = layout_of (nth 2 parts "")) /\
  (conv t <> date -> datefmt t = "") /\
  t = parseBsonConvTag (String.concat "," ("" :: firstn 3 parts)).
Proof.
  intros Hf t. unfold t. rewrite (parseBsonConvTag_concat p parts Hf).
  cbn [conv omitempty datefmt]. repeat split.
  - intros H. apply negb_true_iff in H. now apply String.eqb_neq in H.
  - intros H. apply negb_true_iff. now apply String.eqb_neq.
  - now intros ->.
  - intros H. destruct (parseConvType (nth 0 parts "")); try reflexivity.
    now contradiction H.
  - rewrite parseBsonConvTag_concat.
    + destruct parts as [|c [|o [|f rest]]]; reflexivity.
    + inversion Hf as [|? ? _ Hp]; subst. constructor; [reflexivity|].
      now apply Forall_take.
Qed.

(** ** Conversions *)

Lemma wrap_int64_small z :
  (- 2 ^ 63 <= z < 2 ^ 63)%Z -> wrap_int64 z = z.
Proof.
  intros Hz. unfold wrap_int64.
  rewrite Z.mod_small by lia. lia.
Qed.

(** X11: what [convertString] does with the tag it is given, from the
    fields of the tag: for the kind [$oid] it is the result of
    [ObjectIDFromHex], for [$date] the result of [time.Parse] with the
    layout of the fourth field (the layout a name of the table stands
    for, the text itself otherwise) and with the millisecond layout when
    that field is empty or missing, and for every other kind the string
    itself with no error. *)
Theorem convertString_of_tag
    (ObjectID Time error : Type)
    (ObjectIDFromHex : string -> ObjectID * option error)
    (time_Parse : string -> string -> Time * option error)
    p parts v :
  Forall (fun s => contains ","%char s = false) (p :: parts) ->
  convertString ObjectID Time error ObjectIDFromHex time_Parse
      (parseBsonConvTag (String.concat "," (p :: parts))) v
    = match parseConvType (nth 0 parts "") with
      | oid => let (id, err) := ObjectIDFromHex v in
               (AsObjectID ObjectID Time id, err)
      | date =>
          let (t, err) :=
            time_Parse (if String.eqb (nth 2 parts "") ""
                        then RFC3339Milli
                        else layout_of (nth 2 parts "")) v in
          (AsTime ObjectID Time t, err)
      | _ => (AsString ObjectID Time v, None)
      end.
Proof.
  intros Hf. rewrite (parseBsonConvTag_concat p parts Hf).
  unfold convertString. cbn [conv datefmt].
  destruct (parseConvType (nth 0 parts ""));
    cbn [convType_eqb index_of_convType Nat.eqb]; try reflexivity.
  change (match timeFormats !! layout_of (nth 2 parts "") with
          | Some tfmt => tfmt
          | None => layout_of (nth 2 parts "")
          end) with (layout_of (layout_of (nth 2 parts ""))).
  rewrite layout_of_idem.
  destruct (String.eqb_spec (layout_of (nth 2 parts "")) "") as [E | E].
  - pose proof (proj1 (layout_of_empty _) E) as E'. rewrite E'. reflexivity.
  - destruct (String.eqb_spec (nth 2 parts "") "") as [E' | E'];
      [|reflexivity].
    contradiction E. now apply layout_of_empty.
Qed.

(** X12: [convertToTime] keeps the instant. For every count of
    milliseconds other than zero, the time it builds is that many
    milliseconds from the Unix epoch, before the epoch for a negative
    count; the count zero does not give the epoch but the zero time. *)
Theorem convertToTime_instant v :
  v <> 0%Z ->
  unix_nanos (convertToTime v) = (v * 1000000)%Z /\
  convertToTime 0 = TimeZero /\ unix_nanos (convertToTime 0) <> 0%Z.
Proof.
  intros Hv. repeat split; [|discriminate].
  unfold convertToTime. apply Z.eqb_neq in Hv as ->. cbn [unix_nanos].
  pose proof (Z.rem_bound_abs v 1000) as Hb.
  pose proof (Z.quot_rem' v 1000) as Hqr.
  rewrite wrap_int64_small by lia. lia.
Qed.

(** ** Field names *)

(** X13: the name of a field is the name of the tag of highest priority
    that gives one: the name in the [bsoncv] tag, else the name in the
    [bson] tag, else the name in the [json] tag unless that name is a
    hyphen, else the name of the field itself. The loop of the code
    runs the other way, from [json] to [bsoncv], each name overriding
    the one before. *)
Theorem fieldName_priority (TrimSpace : string -> string) f :
  fieldName TrimSpace f
    = if negb (String.eqb (tag_name TrimSpace f "bsoncv") "")
      then tag_name TrimSpace f "bsoncv"
      else if negb (String.eqb (tag_name TrimSpace f "bson") "")
      then tag_name TrimSpace f "bson"
      else if negb (String.eqb (tag_name TrimSpace f "json") "")
                && negb (String.eqb (tag_name TrimSpace f "json") "-")
      then tag_name TrimSpace f "json"
      else Name f.
Proof.
  assert (forall s, (0 <? length (Split ","%char s))%nat = true) as Hlen.
  { intros s. pose proof (Split_nonempty ","%char s).
    destruct (Split ","%char s); [contradiction | reflexivity]. }
  unfold fieldName, fieldName_step, tag_name. cbn [fold_left].
  rewrite !Hlen. cbn [String.eqb Ascii.eqb andb negb].
  change ("bson" =? "json") with false. change ("bsoncv" =? "json") with false.
  change ("json" =? "json") with true. cbn [andb negb].
  destruct (Tag_Get f "bsoncv" =? ""), (Tag_Get f "bson" =? ""),
    (Tag_Get f "json" =? ""); cbn [negb String.eqb andb];
    repeat match goal with
           | |- context [String.eqb ?a ?b] =>
               destruct (String.eqb a b); cbn [negb andb]
           end; reflexivity.
Qed.

End TagsFacts.

(** * The store wrapper on documents *)

Section DecoderFacts.

Variable FormatFloat : N -> list byte.
Variable FormatRFC3339Nano : Z -> list byte.

Local Abbreviation DecodeBytes :=
  (Wrapper.DecodeBytes FormatFloat FormatRFC3339Nano).

(** X14: [DecodeBytes] has no error of its own. When the driver hands
    over a document without an error, the call either returns text with
    a nil error or panics; whatever the transcoder cannot decode never
    reaches the caller as an error. When the driver reports an error,
    the transcoder is not run: the call returns no text and the driver's
    error with its context. *)
Theorem DecodeBytes_error_channel data :
  (forall e,
     DecodeBytes (data, Some e)
       = Some (Wrapper.Returns
                 (None, Some (Wrapper.Wrap e "failed to decode bytes")))) /\
  ((exists out, DecodeBytes (data, None)
                = Some (Wrapper.Returns (Some out, None))) \/
   (exists p, DecodeBytes (data, None) = Some (Wrapper.Panics (Some p)))).
Proof.
  split; [reflexivity|]. unfold Wrapper.DecodeBytes.
  destruct (ToJson_total FormatFloat FormatRFC3339Nano data) as [[out|p] ->];
    eauto.
Qed.

(** X15: [DecodeBytes] on a well-formed document. When the driver hands
    over the encoding of a document tree (as in the theorem on [ToJson])
    without an error, the call returns the text of the tree and a nil
    error. *)
Theorem DecodeBytes_well_formed prefix es spare :
  (forall bits, closed_text (FormatFloat bits)) ->
  length prefix = 4 -> wf_elements es -> depth_elements es <= 63 ->
  DecodeBytes (Slice (encode_document prefix es) spare, None)
    = Some (Wrapper.Returns
              (Some (render_document FormatFloat FormatRFC3339Nano es),
               None)).
Proof.
  intros Hff Hp Hwf Hd. unfold Wrapper.DecodeBytes.
  now rewrite (document_run FormatFloat FormatRFC3339Nano Hff prefix es spare).
Qed.

End DecoderFacts.

(** X16: the three ways [InsertOne] ends. With an error of the driver it
    returns the empty string and that error with a stack; without one
    and with an inserted id that is an ObjectID it returns, with a nil
    error, two lower-case hexadecimal characters for each byte of the id,
    which decode to the id; and it panics exactly when the driver reports
    no error and the inserted id is of another type. *)
Theorem InsertOne_results inserted err :
  match Wrapper.InsertOne (inserted, err) with
  | Wrapper.Returns (hex, Some e) =>
      hex = [] /\ exists e0, err = Some e0 /\ e = Store.WithStack e0
  | Wrapper.Returns (hex, None) =>
      err = None /\
      exists id, inserted = Wrapper.IsObjectID id /\
        length hex = 2 * length id /\
        Forall (fun c => lower_hex c = true) hex /\
        DecodeString hex = Some id
  | Wrapper.Panics _ => err = None /\ inserted = Wrapper.NotObjectID
  end.
Proof.
  unfold Wrapper.InsertOne. destruct err as [e|].
  - split; [reflexivity | eauto].
  - destruct inserted as [id|]; [|split; reflexivity].
    split; [reflexivity|]. exists id. split; [reflexivity|].
    apply EncodeToString_spec.
Qed.

(** * Reading behind the end of the slice *)

Section BeyondLength.

Variable FormatFloat : N -> list byte.
Variable FormatRFC3339Nano : Z -> list byte.

Local Abbreviation dispatch := (dispatch FormatFloat FormatRFC3339Nano).
Local Abbreviation iteration := (iteration FormatFloat FormatRFC3339Nano).
Local Abbreviation ToJson := (ToJson FormatFloat FormatRFC3339Nano).
Local Abbreviation reachable := (reachable FormatFloat FormatRFC3339Nano).
Local Abbreviation render_value :=
  (render_value FormatFloat FormatRFC3339Nano).

(** X17: a fixed-width payload that runs over the end of the input but
    not over its capacity is not refused. The slice expression takes the
    missing bytes from the array behind the slice, the value made of
    them is written, and the call returns as if the input were whole:
    the text depends on bytes that are not part of the input. *)
Theorem payload_read_beyond_length bs st st1 v w :
  reachable bs st -> idx st < len bs ->
  elems bs !! idx st = Some (tag_of v) ->
  fixed_width v = Some w -> wf_value v ->
  element_key bs st = Ok st1 ->
  len bs < idx st1 + w -> idx st1 + w <= cap bs ->
  encode_payload v = take w (drop (idx st1) (elems bs ++ backing bs)) ->
  ToJson bs = Some (Returned (jsonbytes st1 ++ render_value v)).
Proof.
  intros Hr Hlt Htag Hw Hwf Hk Hlen Hcap Hp.
  rewrite (reachable_run _ _ _ _ Hr), (run_iteration _ _ _ _ Hlt).
  assert (subslice bs (idx st1) (idx st1 + w) = Ok (encode_payload v)) as Hs.
  { unfold subslice.
    assert ((idx st1 <=? idx st1 + w) && (idx st1 + w <=? cap bs) = true)
      as -> by (apply andb_true_iff; split; apply Nat.leb_le; lia).
    rewrite Hp. do 2 f_equal. lia. }
  assert (forall text,
            flow_of (add_comma bs (with_idx (emit st1 text) (idx st1 + w)))
            = Continue (with_idx (emit st1 text) (idx st1 + w))) as Hc.
  { intros text. unfold add_comma. cbn [idx with_idx emit].
    assert ((idx st1 + w <? len bs) = false) as -> by (apply Nat.ltb_ge; lia).
    reflexivity. }
  unfold iteration, dispatch. apply index_Ok in Htag. rewrite Htag.
  destruct v; try discriminate Hw; injection Hw as <-;
    cbn [tag_of encode_payload render_value] in *;
    rewrite Hk; cbn [bind]; rewrite Hs; cbn [bind flow_of];
    rewrite Hc; rewrite run_end by (cbn [idx with_idx]; lia); reflexivity.
Qed.

End BeyondLength.

(** * The length prefix of the input *)

Section SamePrefix.

Variables (p1 p2 rest spare : list byte).
Hypothesis Hlen : length p1 = length p2.

Let A := Slice (p1 ++ rest) spare.
Let B := Slice (p2 ++ rest) spare.

Lemma same_len : len A = len B.
Proof. unfold len, A, B. cbn. rewrite !length_app. lia. Qed.

Lemma same_index i : length p2 <= i -> index A i = index B i.
Proof.
  intros Hi. unfold index, A, B. cbn [elems].
  rewrite !lookup_app_r by lia. now rewrite Hlen.
Qed.

Lemma same_subslice lo hi :
  length p2 <= lo -> subslice A lo hi = subslice B lo hi.
Proof.
  intros Hlo. unfold subslice, cap, A, B. cbn [elems backing].
  rewrite !length_app, Hlen.
  destruct ((lo <=? hi) && _); [|reflexivity].
  f_equal. rewrite <- !app_assoc.
  rewrite (drop_app_ge p1), (drop_app_ge p2) by lia. now rewrite Hlen.
Qed.

Lemma same_escape_loop n i out :
  length p2 <= i -> escape_loop n A i out = escape_loop n B i out.
Proof.
  revert i out. induction n as [|n IH]; intros i out Hi; cbn [escape_loop];
    [reflexivity|].
  rewrite same_index by exact Hi.
  destruct (index B i) as [b|p]; cbn [bind]; [|reflexivity].
  apply IH. lia.
Qed.

Lemma same_scan_name from :
  length p2 <= from -> scan_name A from = scan_name B from.
Proof.
  intros Hf. unfold scan_name, A, B. cbn [elems].
  rewrite (drop_app_ge p1), (drop_app_ge p2) by lia. now rewrite Hlen.
Qed.

Lemma same_add_comma st :
  length p2 <= idx st -> add_comma A st = add_comma B st.
Proof.
  intros Hi. unfold add_comma. rewrite same_len.
  now rewrite same_index by exact Hi.
Qed.

Lemma same_element_key st :
  length p2 <= idx st -> element_key A st = element_key B st.
Proof.
  intros Hi. unfold element_key. rewrite same_scan_name by lia.
  destruct (scan_name B (S (idx st))) as [end_|p]; cbn [bind]; [|reflexivity].
  destruct (stack_top st) as [top|p]; cbn [bind]; [|reflexivity].
  now rewrite same_subslice by lia.
Qed.

End SamePrefix.

Section LengthPrefix.

Variable FormatFloat : N -> list byte.
Variable FormatRFC3339Nano : Z -> list byte.

Local Abbreviation dispatch := (dispatch FormatFloat FormatRFC3339Nano).
Local Abbreviation iteration := (iteration FormatFloat FormatRFC3339Nano).
Local Abbreviation loop := (loop FormatFloat FormatRFC3339Nano).
Local Abbreviation ToJson := (ToJson FormatFloat FormatRFC3339Nano).

Variables (p1 p2 rest spare : list byte).
Hypothesis Hlen : length p1 = length p2.

Lemma same_dispatch st :
  length p2 <= idx st ->
  dispatch (Slice (p1 ++ rest) spare) st
    = dispatch (Slice (p2 ++ rest) spare) st.
Proof.
  intros Hi. unfold dispatch.
  rewrite (same_index p1 p2 rest spare Hlen) by exact Hi.
  destruct (index (Slice (p2 ++ rest) spare) (idx st)) as [tag|];
    [|reflexivity].
  rewrite (same_element_key p1 p2 rest spare Hlen) by exact Hi.
  pose proof (same_subslice p1 p2 rest spare Hlen) as Ssub.
  pose proof (same_index p1 p2 rest spare Hlen) as Sidx.
  pose proof (same_escape_loop p1 p2 rest spare Hlen) as Sesc.
  destruct (element_key (Slice (p2 ++ rest) spare) st) as [s|p] eqn:Hk.
  2:{ destruct tag; reflexivity. }
  apply element_key_Ok in Hk as (end_ & key & Hs & Hi1 & _).
  apply scan_name_Ok in Hs as [Hs _].
  assert (length p2 <= idx s) as His by lia.
  destruct tag; try reflexivity; cbn [bind];
    rewrite ?Ssub, ?Sidx by lia; try reflexivity.
  (* string *)
  destruct (subslice _ _ _) as [prefix|]; cbn [bind]; [|reflexivity].
  now rewrite Sesc by lia.
Qed.

Lemma same_iteration st :
  length p2 <= idx st ->
  iteration (Slice (p1 ++ rest) spare) st
    = iteration (Slice (p2 ++ rest) spare) st.
Proof.
  intros Hi. unfold iteration. rewrite same_dispatch by exact Hi.
  destruct (dispatch _ st) as [st1| |] eqn:Hd; try reflexivity.
  apply dispatch_Continue in Hd as [Hlt _].
  now rewrite (same_add_comma p1 p2 rest spare Hlen) by lia.
Qed.

Lemma loop_step fuel bs st :
  loop fuel bs st
    = if idx st <? len bs then
        match fuel with
        | 0 => None
        | S fuel' =>
            match iteration bs st with
            | Continue st' => loop fuel' bs st'
            | Return out => Some (Returned out)
            | Panics p => Some (Panicked p)
            end
        end
      else Some (Returned (jsonbytes st)).
Proof. destruct fuel; reflexivity. Qed.

Lemma same_loop fuel st :
  length p2 <= idx st ->
  loop fuel (Slice (p1 ++ rest) spare) st
    = loop fuel (Slice (p2 ++ rest) spare) st.
Proof.
  revert st. induction fuel as [|fuel IH]; intros st Hi;
    rewrite (loop_step _ (Slice (p1 ++ rest) spare)),
      (loop_step _ (Slice (p2 ++ rest) spare)),
      (same_len p1 p2 rest spare Hlen); [reflexivity|].
  destruct (idx st <? len _); [|reflexivity].
  rewrite same_iteration by exact Hi.
  destruct (iteration _ st) as [st'| |] eqn:Hit; try reflexivity.
  apply IH. apply iteration_Continue in Hit as [Hlt _]. lia.
Qed.

(** X18: the first four bytes of the input are never read. Two inputs
    with the same capacity that differ only in their first four bytes
    (or in fewer, when they are shorter) have the same outcome: the same
    text returned or the same panic, for every input, well-formed or
    not. *)
Theorem length_prefix_not_read :
  length p2 <= 4 ->
  ToJson (Slice (p1 ++ rest) spare) = ToJson (Slice (p2 ++ rest) spare).
Proof.
  intros H4. unfold ToJson. rewrite (same_len p1 p2 rest spare Hlen).
  destruct (len (Slice (p2 ++ rest) spare) =? 0) eqn:E.
  - apply Nat.eqb_eq in E. unfold len in E. cbn [elems] in E.
    rewrite length_app in E.
    assert (p1 = []) as -> by (apply length_zero_iff_nil; lia).
    assert (p2 = []) as -> by (apply length_zero_iff_nil; lia).
    reflexivity.
  - apply same_loop. cbn [idx initial]. exact H4.
Qed.

End LengthPrefix.

(** ** The further properties at sample inputs *)

Lemma FormatFloat_any_closed bits : closed_text (FormatFloat_any bits).
Proof. exists x30. repeat split; discriminate. Qed.

Lemma returned_output_extends_witness :
  (exists tail,
     [LBRACE; QUOTE; x61; QUOTE; COLON] ++ bytes_of "true" ++ [COMMA]
       = ([LBRACE; QUOTE; x61; QUOTE; COLON] ++ bytes_of "true" ++ [COMMA])
           ++ tail) /\
  (exists tail,
     [LBRACE; QUOTE; x61; QUOTE; COLON] ++ bytes_of "true" ++ [COMMA]
       = LBRACE :: tail).
Proof.
  apply (returned_output_extends FormatFloat_any FormatTime_any
           (Slice boolean_binary_document [])
           (State 8 ([LBRACE; QUOTE; x61; QUOTE; COLON] ++ bytes_of "true"
                       ++ [COMMA])
              (stack initial) 0)).
  - apply (states_after_reachable _ _ 1 _ initial);
      [apply reach_initial; discriminate | reflexivity].
  - vm_compute. reflexivity.
Defined.

Lemma terminal_closes_container_witness :
  exists c st',
    stack initial !! Z.to_nat (stackptr initial) = Some c /\
    (c = RBRACE \/ c = RBRACKET) /\
    iteration FormatFloat_any FormatTime_any (Slice empty_document []) initial
      = Continue st' /\
    idx st' = idx initial + 1 /\ stackptr st' = (stackptr initial - 1)%Z /\
    (jsonbytes st' = jsonbytes initial ++ [c] \/
     jsonbytes st' = jsonbytes initial ++ [c; COMMA]).
Proof.
  apply (terminal_closes_container FormatFloat_any FormatTime_any
           (Slice empty_document []) initial).
  - apply reach_initial. discriminate.
  - vm_compute. lia.
  - reflexivity.
  - vm_compute. discriminate.
Defined.

Lemma short_input_returns_brace_witness :
  ToJson_any (Slice [x05] []) = Some (Returned [LBRACE]).
Proof.
  apply (short_input_returns_brace FormatFloat_any FormatTime_any
           (Slice [x05] [])).
  vm_compute. lia.
Defined.

Lemma input_after_document_panics_witness :
  ToJson_any (Slice padded_document []) = Some (Panicked IndexOutOfRange).
Proof.
  apply (input_after_document_panics FormatFloat_any FormatTime_any
           (Slice padded_document [])
           (State 5 [LBRACE; RBRACE] (replicate 64 x00) (-1)) Terminal).
  - apply (states_after_reachable _ _ 1 _ initial);
      [apply reach_initial; discriminate | reflexivity].
  - vm_compute. lia.
  - reflexivity.
  - reflexivity.
  - left. reflexivity.
Defined.

Lemma unterminated_name_panics_witness :
  ToJson_any (Slice cut_in_name []) = Some (Panicked IndexOutOfRange).
Proof.
  apply (unterminated_name_panics FormatFloat_any FormatTime_any
           (Slice cut_in_name []) initial Int32).
  - apply reach_initial. discriminate.
  - vm_compute. lia.
  - reflexivity.
  - reflexivity.
  - repeat constructor. discriminate.
Defined.

Lemma truncated_payload_panics_witness :
  ToJson_any (Slice cut_in_payload [])
    = Some (Panicked SliceBoundsOutOfRange).
Proof.
  apply (truncated_payload_panics FormatFloat_any FormatTime_any
           (Slice cut_in_payload []) initial
           (State 7 [LBRACE; QUOTE; x61; QUOTE; COLON] (stack initial) 0)
           Int32 4).
  - apply reach_initial. discriminate.
  - vm_compute. lia.
  - reflexivity.
  - reflexivity.
  - reflexivity.
  - vm_compute. lia.
Defined.

Lemma object_id_element_hex_witness :
  dispatch FormatFloat_any FormatTime_any (Slice object_id_document [])
      initial
    = Continue (State 19
                  ([LBRACE; QUOTE; x61; QUOTE; COLON]
                     ++ QUOTE :: bytes_of "0123456789abcdef01234567"
                     ++ [QUOTE])
                  (stack initial) 0) /\
  DecodeString (bytes_of "0123456789abcdef01234567")
    = Some object_id_payload.
Proof.
  pose proof (object_id_element_hex FormatFloat_any FormatTime_any
                (Slice object_id_document []) initial
                (State 7 [LBRACE; QUOTE; x61; QUOTE; COLON] (stack initial) 0))
    as H.
  destruct H as (Hd & _ & _ & _ & Hdec).
  - reflexivity.
  - reflexivity.
  - vm_compute. lia.
  - split; [exact Hd | exact Hdec].
Defined.

Lemma well_formed_document_decodes_witness :
  ToJson_any (Slice (encode_document (size_of sample_tree) sample_tree) [])
    = Some (Returned
              ([LBRACE; QUOTE; x61; QUOTE; COLON; LBRACKET; x37; COMMA;
                QUOTE; x78; QUOTE; RBRACKET; COMMA;
                QUOTE; x62; QUOTE; COLON; LBRACE; QUOTE; x63; QUOTE; COLON]
                 ++ bytes_of "true"
                 ++ [RBRACE; COMMA; QUOTE; x64; QUOTE; COLON]
                 ++ bytes_of "null" ++ [RBRACE])).
Proof.
  apply (well_formed_document_decodes FormatFloat_any FormatTime_any
           FormatFloat_any_closed (size_of sample_tree) sample_tree []).
  - reflexivity.
  - cbn. repeat split; repeat constructor; try discriminate.
  - cbn. lia.
Defined.

Lemma parseBsonConvTag_fields_witness :
  Tags.conv (Tags.parseBsonConvTag "date3,$date,,RFC1123Z") = Tags.date /\
  Tags.datefmt (Tags.parseBsonConvTag "date3,$date,,RFC1123Z")
    = "Mon, 02 Jan 2006 15:04:05 -0700"%string.
Proof.
  pose proof (TagsFacts.parseBsonConvTag_fields "date3"
                ["$date"; ""; "RFC1123Z"]%string) as H.
  destruct H as (Hc & _ & Hd & _).
  - repeat constructor.
  - split; [exact Hc | exact (Hd Hc)].
Defined.

Lemma convertString_of_tag_witness :
  Tags.convertString nat Z unit (fun s => (String.length s, None))
      (fun layout s => (Z.of_nat (String.length layout), None))
      (Tags.parseBsonConvTag "birthday,$date") "2020-01-13T11:32:13.222Z"
    = (Tags.AsTime nat Z 29%Z, None).
Proof.
  apply (TagsFacts.convertString_of_tag nat Z unit
           (fun s => (String.length s, None))
           (fun layout s => (Z.of_nat (String.length layout), None))
           "birthday" ["$date"]%string "2020-01-13T11:32:13.222Z").
  repeat constructor.
Defined.

Lemma convertToTime_instant_witness :
  Tags.unix_nanos (Tags.convertToTime (-1)) = (-1000000)%Z /\
  Tags.convertToTime 0 = Tags.TimeZero /\
  Tags.unix_nanos (Tags.convertToTime 0) <> 0%Z.
Proof.
  apply (TagsFacts.convertToTime_instant (-1)). discriminate.
Defined.

Lemma DecodeBytes_well_formed_witness :
  Wrapper.DecodeBytes FormatFloat_any FormatTime_any
      (Slice (encode_document (size_of sample_tree) sample_tree) [], None)
    = Some (Wrapper.Returns
              (Some (render_document FormatFloat_any FormatTime_any
                       sample_tree),
               None)).
Proof.
  apply (DecodeBytes_well_formed FormatFloat_any FormatTime_any
           (size_of sample_tree) sample_tree []).
  - exact FormatFloat_any_closed.
  - reflexivity.
  - cbn. repeat split; repeat constructor; try discriminate.
  - cbn. lia.
Defined.

Lemma payload_read_beyond_length_witness :
  ToJson_any (Slice cut_in_payload spare_bytes)
    = Some (Returned ([LBRACE; QUOTE; x61; QUOTE; COLON]
                        ++ bytes_of "65543")).
Proof.
  apply (payload_read_beyond_length FormatFloat_any FormatTime_any
           (Slice cut_in_payload spare_bytes) initial
           (State 7 [LBRACE; QUOTE; x61; QUOTE; COLON] (stack initial) 0)
           (VInt32 [x07; x00; x01; x00]) 4).
  - apply reach_initial. discriminate.
  - vm_compute. lia.
  - reflexivity.
  - reflexivity.
  - reflexivity.
  - reflexivity.
  - vm_compute. lia.
  - vm_compute. lia.
  - reflexivity.
Defined.

Lemma length_prefix_not_read_witness :
  ToJson_any (Slice (le32 5 ++ [Terminal]) [])
    = ToJson_any (Slice ([xff; xff; xff; xff] ++ [Terminal]) []).
Proof.
  apply (length_prefix_not_read FormatFloat_any FormatTime_any
           (le32 5) [xff; xff; xff; xff] [Terminal] []).
  - reflexivity.
  - cbn. lia.
Defined.
